(** * Anonymous unsubscription by e-mail confirmation (Postorius)

    A shallow embedding of the token workflow of
    [postorius/verification_email.py] (class [UnsubscribeEmailImp]) and of the
    two views [AnonymousUnsubscribeEmailView.post] and
    [AnonymousUnsubscribeView.get] of [postorius/views/list.py].

    Conventions of the model.
    - Python [str] is [string]; [str.lower] acts on the letters A-Z.
    - The Django cache is a finite map from keys to entries that carry the
      absolute time at which they expire; a handler runs at one instant [now].
    - Handlers are written in a state-and-exception monad [M]: the state is
      the [world], a raised exception keeps the state reached so far.
    - Everything outside these two files (Mailman client, mail transport,
      settings, the random source, [MailingListView._has_pending_unsub_req])
      is a field of the record [env]; a collaborator answers with a value or
      with an exception.
    - The cache itself does not fail: [get], [has_key], [set] and [delete]
      always return. *)

From Stdlib Require Import ZArith String Ascii List Bool Lia.
From stdpp Require Import base option gmap strings.

Local Open Scope string_scope.
Local Open Scope list_scope.
Local Open Scope Z_scope.

(** ** Strings *)

Module Str.

Definition is_upper (c : ascii) : bool :=
  let n := nat_of_ascii c in (Nat.leb 65 n && Nat.leb n 90)%bool.

Definition is_lower (c : ascii) : bool :=
  let n := nat_of_ascii c in (Nat.leb 97 n && Nat.leb n 122)%bool.

Definition is_digit (c : ascii) : bool :=
  let n := nat_of_ascii c in (Nat.leb 48 n && Nat.leb n 57)%bool.

Definition one_of (cs : string) (c : ascii) : bool :=
  existsb (Ascii.eqb c) (list_ascii_of_string cs).

Definition lower_char (c : ascii) : ascii :=
  if is_upper c then ascii_of_nat (nat_of_ascii c + 32) else c.

(** [s.lower()] *)
Fixpoint lower (s : string) : string :=
  match s with
  | EmptyString => EmptyString
  | String c s' => String (lower_char c) (lower s')
  end.

(** [s.replace(".", "@", 1)]: the first dot, if any, becomes an at sign. *)
Fixpoint replace_first_dot (s : string) : string :=
  match s with
  | EmptyString => EmptyString
  | String c s' =>
      if Ascii.eqb c "." then String "@" s' else String c (replace_first_dot s')
  end.

Definition nl : string := String (ascii_of_nat 10) EmptyString.
Definition dq : string := String (ascii_of_nat 34) EmptyString.

End Str.

(** ** Regular expressions, matched by derivatives

    Enough of [re] for the address pattern of the request view. *)

Module Re.

Inductive regex :=
| Void
| Eps
| Class (p : ascii -> bool)
| Cat (r1 r2 : regex)
| Alt (r1 r2 : regex)
| Star (r : regex).

Fixpoint nullable (r : regex) : bool :=
  match r with
  | Void => false
  | Eps => true
  | Class _ => false
  | Cat r1 r2 => nullable r1 && nullable r2
  | Alt r1 r2 => nullable r1 || nullable r2
  | Star _ => true
  end.

Fixpoint deriv (c : ascii) (r : regex) : regex :=
  match r with
  | Void => Void
  | Eps => Void
  | Class p => if p c then Eps else Void
  | Cat r1 r2 =>
      if nullable r1
      then Alt (Cat (deriv c r1) r2) (deriv c r2)
      else Cat (deriv c r1) r2
  | Alt r1 r2 => Alt (deriv c r1) (deriv c r2)
  | Star r1 => Cat (deriv c r1) (Star r1)
  end.

(** The whole of [s] is in the language of [r]. *)
Fixpoint fullmatch (r : regex) (s : string) : bool :=
  match s with
  | EmptyString => nullable r
  | String c s' => fullmatch (deriv c r) s'
  end.

(** [r+] and [r{2,}] *)
Definition plus (r : regex) : regex := Cat r (Star r).
Definition two_or_more (r : regex) : regex := Cat r (Cat r (Star r)).

(** [$] without [re.MULTILINE]: the end of the string, or just before a
    newline that ends the string. *)
Definition dollar : regex := Alt Eps (Class (Ascii.eqb (ascii_of_nat 10))).

End Re.

(** ** Python exceptions *)

Inductive exn :=
| KeyError (key : string)
| HTTPError (code : Z)
| ValueError (msg : string)
| JSONDecodeError (msg : string)
| RuntimeError (msg : string)
| AttributeError (msg : string)
| OtherError (name msg : string).

(** [isinstance(e, ValueError)]: [json.JSONDecodeError] derives from it. *)
Definition is_ValueError (e : exn) : bool :=
  match e with
  | ValueError _ | JSONDecodeError _ => true
  | _ => false
  end.

(** [str(e)] *)
Definition exn_str (e : exn) : string :=
  match e with
  | KeyError k => k
  | HTTPError c => "HTTP Error"
  | ValueError m | JSONDecodeError m | RuntimeError m | AttributeError m => m
  | OtherError _ m => m
  end.

(** ** Data held by the cache *)

(** What [json.loads] returns, as far as the handlers look at it: an object
    becomes a [dict], whose values are kept as the text that [str.format]
    and [%s] print for them; anything else is not a [dict]. *)
Inductive json :=
| JObj (d : gmap string string)
| JAtom (shown : string).

(** A cached value is a Python [str]. It is either the serialisation of a
    JSON value or a text that [json.loads] rejects (the empty text is one).
    The marker ["1"] of the request view is the serialisation of the number
    one. *)
Inductive text :=
| Dumped (j : json)
| Plain (s : string).

Definition json_dumps (j : json) : text := Dumped j.

Definition json_loads (t : text) : exn + json :=
  match t with
  | Dumped j => inr j
  | Plain _ => inl (JSONDecodeError "Expecting value")
  end.

(** Truth value of a [str]: false for the empty one only. *)
Definition truthy (t : text) : bool :=
  match t with
  | Dumped _ => true
  | Plain EmptyString => false
  | Plain _ => true
  end.

Definition marker : text := Dumped (JAtom "1").

Record entry := Entry { value : text; expires : Z }.

(** ** Outside world *)

Record mail := Mail {
  subject : string;
  html_message : string;
  from_email : string;
  recipient_list : list string;
  auth_user : string;
  auth_password : string
}.

Inductive level := SUCCESS | ERROR.

Record message := Message { msg_level : level; msg_text : string }.

Inductive response := Redirect (view : string) (arg : string).

Inductive event :=
| CacheSet (key : string) (v : text) (timeout : Z)
| CacheDelete (key : string)
| SendMail (m : mail)
| Unsubscribe (list_id email : string)
| LogError (line : string).

Record request := Request {
  POST : gmap string string;
  GET : gmap string string
}.

Record env := Env {
  VERIFICATION_CODE_EXPIRATION : Z;
  SERVE_WEB_DOMAIN : string;
  DEFAULT_FROM_EMAIL : string;
  EMAIL_HOST_USER : string;
  EMAIL_HOST_PASSWORD : string;
  (** the successive values of [_next_unpredictable_id] *)
  next_id : nat -> string;
  (** [get_mailman_client().get_user(email)] *)
  get_user : string -> exn + unit;
  (** [MailingListView._has_pending_unsub_req], for a list and an address *)
  has_pending_unsub_req : string -> string -> bool;
  (** [django.core.mail.send_mail] *)
  send_mail : mail -> exn + unit;
  (** [mailing_list.unsubscribe(email)]: [None], or a dict *)
  unsubscribe : string -> string -> exn + option (gmap string string)
}.

Record world := World {
  cache : gmap string entry;
  now : Z;
  drawn : nat;
  trace : list event;
  messages : list message
}.

(** ** The monad of handlers *)

Definition M (A : Type) : Type := world -> (exn + A) * world.

Definition ret {A} (a : A) : M A := fun w => (inr a, w).

Definition raise {A} (e : exn) : M A := fun w => (inl e, w).

Definition bind {A B} (m : M A) (k : A -> M B) : M B :=
  fun w =>
    match m w with
    | (inr a, w') => k a w'
    | (inl e, w') => (inl e, w')
    end.

Declare Scope py_scope.
Delimit Scope py_scope with py.
Notation "x <- m ;; k" := (bind m (fun x => k))
  (at level 100, m at next level, right associativity) : py_scope.
Notation "m ;; k" := (bind m (fun _ => k))
  (at level 100, right associativity) : py_scope.
Local Open Scope py_scope.

(** A collaborator's answer becomes a return or a raise. *)
Definition lift {A} (r : exn + A) : M A :=
  match r with
  | inl e => raise e
  | inr a => ret a
  end.

(** The outcome of a block as a value; the state is kept either way. *)
Definition attempt {A} (m : M A) : M (exn + A) :=
  fun w => let (r, w') := m w in (inr r, w').

(** [try: m  except <classes>: h] *)
Definition try_except {A} (m : M A) (classes : exn -> bool) (h : exn -> M A) : M A :=
  fun w =>
    match m w with
    | (inl e, w') => if classes e then h e w' else (inl e, w')
    | (inr a, w') => (inr a, w')
    end.

(** [try: m  finally: f] *)
Definition try_finally {A} (m : M A) (f : M unit) : M A :=
  fun w =>
    let (r, w1) := m w in
    match f w1 with
    | (inl e, w2) => (inl e, w2)
    | (inr _, w2) => (r, w2)
    end.

Definition Exception (e : exn) : bool := true.

(** The world with one more event, one more message, another cache. *)
Definition record_event (ev : event) (w : world) : world :=
  {| cache := cache w; now := now w; drawn := drawn w;
     trace := trace w ++ [ev]; messages := messages w |}.

Definition record_message (lv : level) (s : string) (w : world) : world :=
  {| cache := cache w; now := now w; drawn := drawn w;
     trace := trace w; messages := messages w ++ [Message lv s] |}.

Definition with_cache (c : gmap string entry) (w : world) : world :=
  {| cache := c; now := now w; drawn := drawn w;
     trace := trace w; messages := messages w |}.

Definition emit (ev : event) : M unit :=
  fun w => (inr tt, record_event ev w).

Definition add_message (lv : level) (s : string) : M unit :=
  fun w => (inr tt, record_message lv s w).

(** [messages.success], [messages.error]; [gettext] is the identity.
    [logger.error] keeps the text of the exception, not the traceback. *)
Definition messages_success : string -> M unit := add_message SUCCESS.
Definition messages_error : string -> M unit := add_message ERROR.
Definition logger_error (line : string) : M unit := emit (LogError line).

(** [d[k]] on a dict *)
Definition subscript (d : gmap string string) (k : string) : M string :=
  match d !! k with
  | Some v => ret v
  | None => raise (KeyError k)
  end.

(** ** The cache

    An entry is visible until the clock reaches its expiry time. *)

Definition live (t : Z) (e : entry) : bool := t <? expires e.

Definition peek (c : gmap string entry) (t : Z) (key : string) : option text :=
  match c !! key with
  | Some e => if live t e then Some (value e) else None
  | None => None
  end.

Definition has_key (c : gmap string entry) (t : Z) (key : string) : bool :=
  match peek c t key with
  | Some _ => true
  | None => false
  end.

Definition cache_get (key : string) : M (option text) :=
  fun w => (inr (peek (cache w) (now w) key), w).

Definition cache_has_key (key : string) : M bool :=
  fun w => (inr (has_key (cache w) (now w) key), w).

Definition cache_set (key : string) (v : text) (timeout : Z) : M unit :=
  emit (CacheSet key v timeout);;
  fun w => (inr tt, with_cache (<[key := Entry v (now w + timeout)]> (cache w)) w).

Definition cache_delete (key : string) : M unit :=
  emit (CacheDelete key);;
  fun w => (inr tt, with_cache (delete key (cache w)) w).

(** ** [verification_email.py] *)

Module UnsubscribeEmailImp.

(** [unsubscribe_url.format(domain, list_id, token)] *)
Definition unsubscribe_url_format (domain list_id token : string) : string :=
  "https://" +:+ domain +:+ "/postorius/lists/" +:+ list_id
    +:+ "/anonymous_unsubscribe?token=" +:+ token.

(** [cache_key.format(token)] *)
Definition cache_key_format (token : string) : string := "unsubscribe_" +:+ token.

(** [Template.format(domain=..., link=...)] *)
Definition Template_format (domain link : string) : string :=
  Str.nl +:+
  "<div style=" +:+ Str.dq +:+ "margin:10px 20px;font-size:12px;" +:+ Str.dq +:+ ">" +:+ Str.nl +:+
  "    <div>邮箱退订确认</div>" +:+ Str.nl +:+
  "    <div>Email Address Unsubscribe Confirmation</div>" +:+ Str.nl +:+
  "    <br>" +:+ Str.nl +:+
  "    <div>您好，这是" +:+ domain +:+ "的邮件列表服务，我们收到来自您的邮箱的退订请求。</div>" +:+ Str.nl +:+
  "    <div>Hello, this is the Mailman server at " +:+ domain +:+
  ". We have received a unsubscribe request for your email address.</div>" +:+ Str.nl +:+
  "    <br>" +:+ Str.nl +:+
  "    <div>你可以通过点击以下链接来进行确认：</div>" +:+ Str.nl +:+
  "    <div>You can click on the link below to Undergo verification:</div>" +:+ Str.nl +:+
  "    <br>" +:+ Str.nl +:+
  "    <div><a href=" +:+ Str.dq +:+ link +:+ Str.dq +:+ ">" +:+ link +:+ "</div>" +:+ Str.nl +:+
  "    <br>" +:+ Str.nl +:+
  "    <div>若您不想退订该邮箱，请忽略此消息。</div>" +:+ Str.nl +:+
  "    <div>If you do not wish to register this email address, simply disregard this message.</div>"
  +:+ Str.nl.

(** [_next_unpredictable_id]: the digest of a seed made of the clock and a
    random number; here the next value of the source [next_id]. *)
Definition _next_unpredictable_id (E : env) : M string :=
  fun w =>
    (inr (next_id E (drawn w)),
     {| cache := cache w; now := now w; drawn := S (drawn w);
        trace := trace w; messages := messages w |}).

(** The [for ... else] of [get_uuid], with [attempts] rounds left. *)
Fixpoint get_uuid_loop (E : env) (attempts : nat) : M string :=
  match attempts with
  | O => raise (RuntimeError "Could not find a valid pendings token")
  | S rest =>
      token <- _next_unpredictable_id E;;
      let key := cache_key_format token in
      taken <- cache_has_key key;;
      if negb taken then ret token else get_uuid_loop E rest
  end.

Definition get_uuid (E : env) : M string := get_uuid_loop E 5.

Definition send_message (E : env) (list_name templates : string)
    (recipient_list : list string) : M unit :=
  let subject :=
    "Your confirmation is needed to leave the " +:+ list_name +:+ " mailing list" in
  let from_email := DEFAULT_FROM_EMAIL E in
  let auth_user := EMAIL_HOST_USER E in
  let auth_password := EMAIL_HOST_PASSWORD E in
  let m := Mail subject templates from_email recipient_list auth_user auth_password in
  emit (SendMail m);;
  lift (send_mail E m).

Definition send_email (E : env) (email list_id token : string) : M unit :=
  let web_domain := SERVE_WEB_DOMAIN E in
  let link := unsubscribe_url_format web_domain list_id token in
  let list_name := Str.replace_first_dot list_id in
  let template := Template_format list_name link in
  send_message E list_name template [email].

Definition set_token (E : env) (email list_id token : string) : M bool :=
  let save_dict : gmap string string :=
    <["list_id" := list_id]> (<["email" := email]> ∅) in
  let key := cache_key_format token in
  cache_set key (json_dumps (JObj save_dict)) (VERIFICATION_CODE_EXPIRATION E);;
  ret true.

Definition get_token (token : string) : M json :=
  let dict_data := JObj ∅ in
  let key := cache_key_format token in
  value_str <- cache_get key;;
  match value_str with
  | Some t => if truthy t then lift (json_loads t) else ret dict_data
  | None => ret dict_data
  end.

Definition delete_key (key : string) (is_token : bool) : M unit :=
  try_except
    (let key := if is_token then cache_key_format key else key in
     cache_delete key)
    Exception
    (fun e => logger_error ("e:" +:+ exn_str e)).

End UnsubscribeEmailImp.

(** ** [views/list.py] *)

Import UnsubscribeEmailImp.

Definition redirect (view arg : string) : response := Redirect view arg.

(** [mailing_list.unsubscribe(email)] of the list served by the view *)
Definition mailing_list_unsubscribe (E : env) (list_id email : string)
  : M (option (gmap string string)) :=
  emit (Unsubscribe list_id email);;
  lift (unsubscribe E list_id email).

(** ["unsubscribe_{}_{}".format(list_id, email).lower()] *)
Definition pending_key (list_id email : string) : string :=
  Str.lower ("unsubscribe_" +:+ list_id +:+ "_" +:+ email).

Definition ACK : string :=
  "Please check your inbox for further instructions, Or the unsubscription request already pending.".
Definition INVALID_EMAIL : string := "The email you entered is invalid.".
Definition SEND_FAILED : string := "Failed to send email".
Definition INVALID_LINK : string := "Invalid Link.".
Definition TOKEN_INVALID : string := "The token expired or invalid.".
Definition WAITING_APPROVAL : string :=
  "Your unsubscription request has been submitted and is waiting for moderator approval.".
Definition unsubscribed_text (email : string) : string :=
  email +:+ " has been unsubscribed from this list.".

Module AnonymousUnsubscribeEmailView.

Definition alnum (c : ascii) : bool :=
  Str.is_lower c || Str.is_upper c || Str.is_digit c.
Definition alpha (c : ascii) : bool := Str.is_lower c || Str.is_upper c.

(** [^[a-zA-Z0-9._%+-]+@[a-zA-Z0-9.-]+\.[a-zA-Z]{2,}$] *)
Definition pattern : Re.regex :=
  Re.Cat (Re.plus (Re.Class (fun c => alnum c || Str.one_of "._%+-" c)))
 (Re.Cat (Re.Class (Ascii.eqb "@"))
 (Re.Cat (Re.plus (Re.Class (fun c => alnum c || Str.one_of ".-" c)))
 (Re.Cat (Re.Class (Ascii.eqb "."))
 (Re.Cat (Re.two_or_more (Re.Class alpha))
         Re.dollar)))).

(** [re.match(pattern, email) is not None]; the pattern is anchored at both
    ends, so a match covers the whole address. *)
Definition re_match (email : string) : bool := Re.fullmatch pattern email.

Definition post (E : env) (list_id : string) (request : request) : M response :=
  email <- subscript (POST request) "email";;
  if negb (re_match email) then
    messages_error INVALID_EMAIL;;
    ret (redirect "list_summary" list_id)
  else
  looked_up <- attempt (lift (get_user E email));;
  match looked_up with
  | inl (HTTPError code) =>
      logger_error ("e:" +:+ exn_str (HTTPError code));;
      messages_success ACK;;
      ret (redirect "list_summary" list_id)
  | inl e => raise e
  | inr _ =>
      if has_pending_unsub_req E list_id email then
        messages_success ACK;;
        ret (redirect "list_summary" list_id)
      else
        try_except
          ((* 1.check pending *)
           let key := pending_key list_id email in
           pending <- cache_has_key key;;
           if pending then
             messages_success ACK;;
             ret (redirect "list_summary" list_id)
           else
             (* 2.get token *)
             token <- get_uuid E;;
             (* 3.send email *)
             send_email E email list_id token;;
             (* 4.set pending *)
             cache_set key marker (VERIFICATION_CODE_EXPIRATION E);;
             set_token E email list_id token;;
             messages_success ACK;;
             ret (redirect "list_summary" list_id))
          Exception
          (fun e =>
             logger_error ("e:" +:+ exn_str e);;
             messages_error SEND_FAILED;;
             ret (redirect "list_summary" list_id))
  end.

End AnonymousUnsubscribeEmailView.

Module AnonymousUnsubscribeView.

Definition get (E : env) (list_id : string) (request : request) : M response :=
  match GET request !! "token" with
  | None =>
      messages_error INVALID_LINK;;
      ret (redirect "list_summary" list_id)
  | Some token =>
      loaded <- attempt (get_token token);;
      match loaded with
      | inl e =>
          logger_error ("[AnonymousUnsubscribeView] e:" +:+ exn_str e);;
          messages_error TOKEN_INVALID;;
          ret (redirect "list_summary" list_id)
      | inr (JAtom _) =>
          (* [dict_data.keys()] on a value that is not a dict *)
          raise (AttributeError "object has no attribute 'keys'")
      | inr (JObj dict_data) =>
          if negb (bool_decide (is_Some (dict_data !! "email")))
             || negb (bool_decide (is_Some (dict_data !! "list_id")))
          then
            messages_error TOKEN_INVALID;;
            ret (redirect "list_summary" list_id)
          else
            email <- subscript dict_data "email";;
            let key := pending_key list_id email in
            pending <- cache_has_key key;;
            if negb pending then
              messages_error TOKEN_INVALID;;
              ret (redirect "list_summary" list_id)
            else
              try_finally
                (try_except
                   (email_str <- subscript dict_data "email";;
                    response <- mailing_list_unsubscribe E list_id email_str;;
                    match response with
                    | Some r =>
                        match r !! "token" with
                        | Some _ => messages_success WAITING_APPROVAL
                        | None =>
                            shown <- subscript dict_data "email";;
                            messages_success (unsubscribed_text shown)
                        end
                    | None =>
                        shown <- subscript dict_data "email";;
                        messages_success (unsubscribed_text shown)
                    end)
                   is_ValueError
                   (fun e => messages_error (exn_str e)))
                (delete_key key false;;
                 delete_key token true);;
              ret (redirect "list_summary" list_id)
      end
  end.

End AnonymousUnsubscribeView.

(** ** Observations on a run *)

(** The mails handed to the transport. *)
Fixpoint mails (tr : list event) : list mail :=
  match tr with
  | [] => []
  | SendMail m :: tr' => m :: mails tr'
  | _ :: tr' => mails tr'
  end.

(** The writes to the cache ([set] and [delete]). *)
Fixpoint cache_writes (tr : list event) : list event :=
  match tr with
  | [] => []
  | CacheSet k v t :: tr' => CacheSet k v t :: cache_writes tr'
  | CacheDelete k :: tr' => CacheDelete k :: cache_writes tr'
  | _ :: tr' => cache_writes tr'
  end.

(** The calls of the unsubscribe operation of the core, as (list, address). *)
Fixpoint unsubscriptions (tr : list event) : list (string * string) :=
  match tr with
  | [] => []
  | Unsubscribe l e :: tr' => (l, e) :: unsubscriptions tr'
  | _ :: tr' => unsubscriptions tr'
  end.

(** The world [w] after [n] more identifiers have been drawn. *)
Definition after_draws (n : nat) (w : world) : world :=
  {| cache := cache w; now := now w; drawn := (n + drawn w)%nat;
     trace := trace w; messages := messages w |}.

(** The token of the [i]-th attempt of an issue that starts in [w]. *)
Definition candidate (E : env) (w : world) (i : nat) : string :=
  next_id E (drawn w + i)%nat.

(** A token whose key is visible in the cache of [w]. *)
Definition collides (w : world) (token : string) : bool :=
  has_key (cache w) (now w) (cache_key_format token).

Definition EXHAUSTED : exn := RuntimeError "Could not find a valid pendings token".

(** ** Worlds reached by the views

    Named for the statements below; each is proved to be what the view
    computes. *)

(** The world in which a visit is turned down. *)
Definition turned_down (w : world) : world := record_message ERROR TOKEN_INVALID w.

(** The world after the core was asked to unsubscribe and both keys were
    deleted, before the result is told to the user. *)
Definition consumed (list_id email token : string) (w : world) : world :=
  let key := pending_key list_id email in
  let tkey := cache_key_format token in
  {| cache := delete tkey (delete key (cache w));
     now := now w; drawn := drawn w;
     trace := trace w ++ [Unsubscribe list_id email; CacheDelete key; CacheDelete tkey];
     messages := messages w |}.

(** What the user is told after the core answered. *)
Definition told (email : string) (answer : exn + option (gmap string string))
  : option message :=
  match answer with
  | inr (Some r) =>
      match r !! "token" with
      | Some _ => Some (Message SUCCESS WAITING_APPROVAL)
      | None => Some (Message SUCCESS (unsubscribed_text email))
      end
  | inr None => Some (Message SUCCESS (unsubscribed_text email))
  | inl e => if is_ValueError e then Some (Message ERROR (exn_str e)) else None
  end.

(** The mail that [send_email] hands to the transport. *)
Definition mail_for (E : env) (list_id email token : string) : mail :=
  let list_name := Str.replace_first_dot list_id in
  {| subject :=
       "Your confirmation is needed to leave the " +:+ list_name +:+ " mailing list";
     html_message :=
       Template_format list_name
         (unsubscribe_url_format (SERVE_WEB_DOMAIN E) list_id token);
     from_email := DEFAULT_FROM_EMAIL E;
     recipient_list := [email];
     auth_user := EMAIL_HOST_USER E;
     auth_password := EMAIL_HOST_PASSWORD E |}.

(** The payload that [set_token] stores. *)
Definition payload_of (list_id email : string) : text :=
  json_dumps (JObj (<["list_id" := list_id]> (<["email" := email]> ∅))).

(** The world after the except clause of the request view. *)
Definition failed (e : exn) (w : world) : world :=
  record_message ERROR SEND_FAILED (record_event (LogError ("e:" +:+ exn_str e)) w).

(** The world after step 4 of the request view and its acknowledgment. *)
Definition pending_stored (E : env) (list_id email token : string) (w : world)
  : world :=
  let ttl := VERIFICATION_CODE_EXPIRATION E in
  let key := pending_key list_id email in
  let tkey := cache_key_format token in
  {| cache :=
       <[tkey := Entry (payload_of list_id email) (now w + ttl)]>
         (<[key := Entry marker (now w + ttl)]> (cache w));
     now := now w; drawn := drawn w;
     trace := trace w ++ [CacheSet key marker ttl;
                          CacheSet tkey (payload_of list_id email) ttl];
     messages := messages w ++ [Message SUCCESS ACK] |}.

(** The request view as a decision tree over what it reads; [post_run]
    proves that [post] computes it. *)
Definition post_tree (E : env) (list_id email : string) (w : world)
  : (exn + response) * world :=
  let back := inr (Redirect "list_summary" list_id) in
  if negb (AnonymousUnsubscribeEmailView.re_match email) then (back, record_message ERROR INVALID_EMAIL w)
  else
    match get_user E email with
    | inl (HTTPError code) =>
        (back, record_message SUCCESS ACK
                 (record_event (LogError ("e:" +:+ exn_str (HTTPError code))) w))
    | inl e => (inl e, w)
    | inr _ =>
        if has_pending_unsub_req E list_id email
        then (back, record_message SUCCESS ACK w)
        else if has_key (cache w) (now w) (pending_key list_id email)
        then (back, record_message SUCCESS ACK w)
        else
          match get_uuid E w with
          | (inl e, wi) => (back, failed e wi)
          | (inr token, wi) =>
              let m := mail_for E list_id email token in
              match send_mail E m with
              | inl e => (back, failed e (record_event (SendMail m) wi))
              | inr _ =>
                  (back, pending_stored E list_id email token (record_event (SendMail m) wi))
              end
          end
    end.

(** ** Tactics *)

(** Symbolic execution of a handler: unfold the monad and the cache calls. *)
Ltac run :=
  repeat first
    [ progress unfold bind, ret, raise, lift, attempt, try_except, try_finally,
        emit, add_message, messages_success, messages_error, logger_error,
        subscript, cache_get, cache_has_key, cache_set, cache_delete,
        get_token, set_token, delete_key,
        mailing_list_unsubscribe, redirect, Exception
    | progress cbn [fst snd cache now drawn trace messages
                    record_event record_message with_cache negb orb andb] ].

(** Normal form of the world reached. *)
Ltac settle :=
  unfold record_event, record_message, with_cache, after_draws;
  cbn [cache now drawn trace messages];
  rewrite <- ?app_assoc; cbn [app]; try done.

(** ** Sample inputs

    The address [a@example.com] leaves the lists [x.example.com] and
    [y.example.com]; the requests are made at time 1000 with a lifetime of
    600 seconds. *)

Module Sample.

Definition reachable : env :=
  {| VERIFICATION_CODE_EXPIRATION := 600;
     SERVE_WEB_DOMAIN := "lists.example.com";
     DEFAULT_FROM_EMAIL := "postorius@example.com";
     EMAIL_HOST_USER := "mailer";
     EMAIL_HOST_PASSWORD := "secret";
     next_id := fun n => List.nth n ["0a"; "1b"; "2c"; "3d"; "4e"] "ff";
     get_user := fun _ => inr tt;
     has_pending_unsub_req := fun _ _ => false;
     send_mail := fun _ => inr tt;
     unsubscribe := fun _ _ => inr None |}.

(** The mail transport is down. *)
Definition smtp_down : env :=
  {| VERIFICATION_CODE_EXPIRATION := 600;
     SERVE_WEB_DOMAIN := "lists.example.com";
     DEFAULT_FROM_EMAIL := "postorius@example.com";
     EMAIL_HOST_USER := "mailer";
     EMAIL_HOST_PASSWORD := "secret";
     next_id := fun n => List.nth n ["0a"; "1b"; "2c"; "3d"; "4e"] "ff";
     get_user := fun _ => inr tt;
     has_pending_unsub_req := fun _ _ => false;
     send_mail := fun _ => inl (OtherError "SMTPException" "Connection refused");
     unsubscribe := fun _ _ => inr None |}.

(** The core refuses to unsubscribe. *)
Definition core_refuses : env :=
  {| VERIFICATION_CODE_EXPIRATION := 600;
     SERVE_WEB_DOMAIN := "lists.example.com";
     DEFAULT_FROM_EMAIL := "postorius@example.com";
     EMAIL_HOST_USER := "mailer";
     EMAIL_HOST_PASSWORD := "secret";
     next_id := fun n => List.nth n ["0a"; "1b"; "2c"; "3d"; "4e"] "ff";
     get_user := fun _ => inr tt;
     has_pending_unsub_req := fun _ _ => false;
     send_mail := fun _ => inr tt;
     unsubscribe := fun _ _ => inl (ValueError "a@example.com is not a member") |}.

(** The random source repeats itself. *)
Definition stuck_source : env :=
  {| VERIFICATION_CODE_EXPIRATION := 600;
     SERVE_WEB_DOMAIN := "lists.example.com";
     DEFAULT_FROM_EMAIL := "postorius@example.com";
     EMAIL_HOST_USER := "mailer";
     EMAIL_HOST_PASSWORD := "secret";
     next_id := fun _ => "0a";
     get_user := fun _ => inr tt;
     has_pending_unsub_req := fun _ _ => false;
     send_mail := fun _ => inr tt;
     unsubscribe := fun _ _ => inr None |}.

Definition x_list : string := "x.example.com".
Definition y_list : string := "y.example.com".
Definition addr : string := "a@example.com".

(** The dict of the payload stored for [addr] and [x_list]. *)
Definition fields : gmap string string :=
  <["list_id" := x_list]> (<["email" := addr]> ∅).

(** The form of the request view, the link of the confirmation mail. *)
Definition form (email : string) : request :=
  {| POST := {["email" := email]}; GET := ∅ |}.
Definition link (token : string) : request :=
  {| POST := ∅; GET := {["token" := token]} |}.

Definition payload (email list_id : string) : text :=
  json_dumps (JObj (<["list_id" := list_id]> (<["email" := email]> ∅))).

(** Nothing is pending. *)
Definition idle : world :=
  {| cache := ∅; now := 1000; drawn := 0; trace := []; messages := [] |}.

(** The request for [x.example.com] is pending under the token [0a]. *)
Definition requested : world :=
  {| cache :=
       <["unsubscribe_0a" := Entry (payload "a@example.com" "x.example.com") 1600]>
         (<["unsubscribe_x.example.com_a@example.com" := Entry marker 1600]> ∅);
     now := 1000; drawn := 1; trace := []; messages := [] |}.

(** The same store once the lifetime has run out. *)
Definition lapsed : world :=
  {| cache := cache requested; now := 1600; drawn := 1;
     trace := []; messages := [] |}.

(** The payload is there, the marker is not. *)
Definition unguarded : world :=
  {| cache :=
       <["unsubscribe_0a" := Entry (payload "a@example.com" "x.example.com") 1600]> ∅;
     now := 1000; drawn := 1; trace := []; messages := [] |}.

(** Requests for both lists are pending, under [0a] and [1b]. *)
Definition requested_both : world :=
  {| cache :=
       <["unsubscribe_1b" := Entry (payload "a@example.com" "y.example.com") 1600]>
         (<["unsubscribe_y.example.com_a@example.com" := Entry marker 1600]>
            (cache requested));
     now := 1000; drawn := 2; trace := []; messages := [] |}.

End Sample.

(** ** The language of a regular expression

    The strings a pattern stands for, to say what the matcher accepts. *)

Inductive lang : Re.regex -> string -> Prop :=
| lang_eps : lang Re.Eps EmptyString
| lang_class p c : p c = true -> lang (Re.Class p) (String c EmptyString)
| lang_cat r1 r2 s1 s2 :
    lang r1 s1 -> lang r2 s2 -> lang (Re.Cat r1 r2) (s1 +:+ s2)
| lang_alt_l r1 r2 s : lang r1 s -> lang (Re.Alt r1 r2) s
| lang_alt_r r1 r2 s : lang r2 s -> lang (Re.Alt r1 r2) s
| lang_star_nil r : lang (Re.Star r) EmptyString
| lang_star_cons r s1 s2 :
    lang r s1 -> lang (Re.Star r) s2 -> lang (Re.Star r) (s1 +:+ s2).

(** All the characters of [s] are in the class [p]. *)
Fixpoint all_in (p : ascii -> bool) (s : string) : bool :=
  match s with
  | EmptyString => true
  | String c s' => p c && all_in p s'
  end.

(** The character classes of the address pattern. *)
Definition local_char (c : ascii) : bool :=
  AnonymousUnsubscribeEmailView.alnum c || Str.one_of "._%+-" c.
Definition domain_char (c : ascii) : bool :=
  AnonymousUnsubscribeEmailView.alnum c || Str.one_of ".-" c.

(** An address as the pattern reads it: a local part, an at sign, a domain,
    a dot, a top-level name of two letters or more, and possibly one final
    newline. *)
Definition well_formed (email : string) : Prop :=
  ∃ local domain tld tail : string,
    email = local +:+ "@" +:+ domain +:+ "." +:+ tld +:+ tail ∧
    local ≠ EmptyString ∧ all_in local_char local = true ∧
    domain ≠ EmptyString ∧ all_in domain_char domain = true ∧
    (2 ≤ String.length tld)%nat ∧
    all_in AnonymousUnsubscribeEmailView.alpha tld = true ∧
    (tail = EmptyString ∨ tail = Str.nl).


(** ** More observations on a run *)

(** The keys set in the cache, with the timeout given. *)
Fixpoint cache_sets (tr : list event) : list (string * Z) :=
  match tr with
  | [] => []
  | CacheSet k _ t :: tr' => (k, t) :: cache_sets tr'
  | _ :: tr' => cache_sets tr'
  end.

(** The keys deleted from the cache. *)
Fixpoint cache_deletes (tr : list event) : list string :=
  match tr with
  | [] => []
  | CacheDelete k :: tr' => k :: cache_deletes tr'
  | _ :: tr' => cache_deletes tr'
  end.

(** The world [w] seen at another time. *)
Definition at_time (t : Z) (w : world) : world :=
  {| cache := cache w; now := t; drawn := drawn w;
     trace := trace w; messages := messages w |}.

(** The dict that [set_token] serialises. *)
Definition save_dict (email list_id : string) : gmap string string :=
  <["list_id" := list_id]> (<["email" := email]> ∅).


(** ** Other views of [views/list.py]

    The views below run behind [login_required] and the role decorators; a
    run is that of a request that passed them. Forms, the ORM and the calls
    of the core that are not traced are arguments of the view. *)

(** A response of these views: a redirect to a named view with its
    arguments, or a rendered template. *)
Inductive reply :=
| RedirectTo (view : string) (args : list string)
| Render (template : string).

Module ListUnsubscribeView.

Definition ONLY_YOURSELF : string := "You can only unsubscribe yourself.".
Definition PENDING_APPROVAL : string :=
  "You have a pending unsubscription request waiting for moderator approval.".

(** [owned email] is
    [EmailAddress.objects.filter(user=request.user, email=email, verified=True).count()]. *)
Definition post (E : env) (owned : string -> nat) (list_id : string)
    (request : request) : M response :=
  email <- subscript (POST request) "email";;
  let found_email := owned email in
  if Nat.eqb found_email 0 then
    messages_error ONLY_YOURSELF;;
    ret (redirect "list_summary" list_id)
  else if has_pending_unsub_req E list_id email then
    messages_error PENDING_APPROVAL;;
    ret (redirect "list_summary" list_id)
  else
    try_except
      (response <- mailing_list_unsubscribe E list_id email;;
       match response with
       | Some r =>
           match r !! "token" with
           | Some _ => messages_success WAITING_APPROVAL
           | None => messages_success (unsubscribed_text email)
           end
       | None => messages_success (unsubscribed_text email)
       end)
      is_ValueError
      (fun e => messages_error (exn_str e));;
    ret (redirect "list_summary" list_id).

End ListUnsubscribeView.

Module ListMembersViews.

Definition allowed_roles : list string :=
  ["owner"; "moderator"; "member"; "nonmember"].

Definition has_star (s : string) : bool :=
  existsb (Ascii.eqb "*") (list_ascii_of_string s).

(** [_prepare_query]: the value of [q], wrapped in stars unless it has one;
    the empty text when [q] is missing or empty. *)
Definition _prepare_query (request : request) : string :=
  match GET request !! "q" with
  | Some EmptyString | None => EmptyString
  | Some query =>
      if negb (has_star query) then "*" +:+ query +:+ "*" else query
  end.

(** The loop of [_member_post]: one call of the core for each member, in
    order; an exception ends the loop and leaves the view. *)
Fixpoint unsubscribe_each (E : env) (list_id : string) (members : list string)
  : M unit :=
  match members with
  | [] => ret tt
  | member :: rest =>
      mailing_list_unsubscribe E list_id member;;
      unsubscribe_each E list_id rest
  end.

Definition MEMBERS_UNSUBSCRIBED : string :=
  "The selected members have been unsubscribed".

(** [choices] is [form.cleaned_data['choices']] of a valid
    [MultipleChoiceForm], [None] for a form that is not valid. *)
Definition _member_post (E : env) (list_id : string)
    (choices : option (list string)) (role : string) : M reply :=
  match choices with
  | Some members =>
      unsubscribe_each E list_id members;;
      messages_success MEMBERS_UNSUBSCRIBED
  | None => ret tt
  end;;
  ret (RedirectTo "list_members" [list_id; role]).

(** [added] is what [_non_member_post] answers: the view adds a role
    through the core, which is not traced here. *)
Definition post (E : env) (list_id : string) (choices : option (list string))
    (added : string -> M reply) (role : string) : M reply :=
  if negb (bool_decide (role ∈ allowed_roles)) then
    ret (RedirectTo "list_members" [list_id; "member"])
  else if bool_decide (role = "member") then
    _member_post E list_id choices role
  else
    added role.

End ListMembersViews.

(** [remove_all_subscribers], for a list that was found; [members] are the
    addresses of [mlist.members] and [is_post] tells the method. *)
Definition NO_MEMBER : string := "No member is subscribed to the list currently.".
Definition ALL_UNSUBSCRIBED : string :=
  "All members have been unsubscribed from the list.".

Definition remove_all_subscribers (E : env) (list_id : string)
    (members : list string) (is_post : bool) : M reply :=
  if Nat.eqb (length members) 0 then
    messages_error NO_MEMBER;;
    ret (RedirectTo "mass_removal" [list_id])
  else if is_post then
    try_except
      (ListMembersViews.unsubscribe_each E list_id members;;
       messages_success ALL_UNSUBSCRIBED;;
       ret (RedirectTo "list_members" [list_id; "subscriber"]))
      Exception
      (fun e =>
         messages_error (exn_str e);;
         ret (Render "postorius/lists/confirm_removeall_subscribers.html"))
  else
    ret (Render "postorius/lists/confirm_removeall_subscribers.html").

(** A Python dict as the list of its items in insertion order: setting a
    key that is there keeps its place and replaces its value. *)
Fixpoint dict_set {A} (d : list (string * A)) (k : string) (v : A)
  : list (string * A) :=
  match d with
  | [] => [(k, v)]
  | (k', v') :: d' =>
      if String.eqb k' k then (k', v) :: d' else (k', v') :: dict_set d' k v
  end.

(** [{mlist.list_id: mlist for mlist in lists}] *)
Definition by_list_id {A} (list_id : A -> string) (lists : list A)
  : list (string * A) :=
  fold_left (fun d mlist => dict_set d (list_id mlist) mlist) lists [].

(** [_unique_lists] *)
Definition _unique_lists {A} (list_id : A -> string) (lists : list A) : list A :=
  map snd (by_list_id list_id lists).

(** The loop of [_get_mail_host] over the mail hosts of the domains;
    [site_of mail_host] is the domain of the site of the [MailDomain] of that
    mail host, [None] when there is no such [MailDomain]. *)
Definition mail_host_step (site_of : string -> option string) (web_host : string)
    (acc : list string * bool) (mail_host : string) : list string * bool :=
  let (mail_hosts, use_web_host) := acc in
  match site_of mail_host with
  | Some site =>
      if String.eqb site web_host then
        if negb (existsb (String.eqb mail_host) mail_hosts)
        then (mail_hosts ++ [mail_host], use_web_host)
        else (mail_hosts, use_web_host)
      else (mail_hosts, use_web_host)
  | None => (mail_hosts, true)
  end.

(** [_get_mail_host]; [FILTER_VHOST] is the setting, false when unset, and
    [domains] are the mail hosts of [Domain.objects.all()]. *)
Definition _get_mail_host (FILTER_VHOST : bool) (domains : list string)
    (site_of : string -> option string) (web_host : string) : option string :=
  if negb FILTER_VHOST then None
  else
    let (mail_hosts, use_web_host) :=
      fold_left (mail_host_step site_of web_host) domains ([], false) in
    match mail_hosts with
    | [h] => Some h
    | [] => if use_web_host then Some web_host else None
    | _ => None
    end.

(** The actions of [handle_subscription_request], in the order of the dict
    [confirmation_messages]. *)
Definition confirmation_messages : list (string * string) :=
  [("accept", "The request has been accepted.");
   ("reject", "The request has been rejected.");
   ("discard", "The request has been discarded.");
   ("defer", "The request has been defered.")].

(** The loop that picks the action: [action] is bound to each key of the
    dict that is in the form, in turn; [None] stands for the name [action]
    still unbound after the loop. *)
Definition chosen_action (form : gmap string string) : option string :=
  fold_left
    (fun action each =>
       if bool_decide (is_Some (form !! each)) then Some each else action)
    (map fst confirmation_messages) None.

(** [handle_subscription_request]; [get_or_404] finds the list (its list
    id) or raises, [moderate_request] is the call of the core and [reason_of]
    the reason of an [HTTPError]. *)
Definition handle_subscription_request
    (get_or_404 : string -> exn + string)
    (moderate_request : string -> string -> option string -> exn + unit)
    (reason_of : exn -> string)
    (request : request) (list_id request_id : string) : M reply :=
  let action := chosen_action (POST request) in
  m_list <- lift (get_or_404 list_id);;
  match action with
  | None =>
      (* [if action is None] reads a name that was never bound *)
      raise (OtherError "UnboundLocalError"
               "local variable 'action' referenced before assignment")
  | Some action =>
      let reason := POST request !! "reason" in
      try_except
        (lift (moderate_request request_id action reason);;
         match List.find (fun kv => String.eqb (fst kv) action)
                 confirmation_messages with
         | Some kv => messages_success (snd kv)
         | None => raise (KeyError action)
         end)
        (fun e => match e with HTTPError _ => true | _ => false end)
        (fun e =>
           match e with
           | HTTPError 409 =>
               messages_success
                 ("The request was already moderated: " +:+ reason_of e)
           | _ =>
               messages_error
                 ("The request could not be moderated: " +:+ reason_of e)
           end);;
      ret (RedirectTo "list_subscription_requests" [m_list])
  end.


(** The members for which [unsubscribe_each] calls the core: all of them
    up to the first for which the core raises, that one included. *)
Fixpoint attempted (E : env) (list_id : string) (members : list string)
  : list string :=
  match members with
  | [] => []
  | member :: rest =>
      member :: match unsubscribe E list_id member with
                | inl _ => []
                | inr _ => attempted E list_id rest
                end
  end.

(** The first exception that the core raises for one of the members. *)
Fixpoint first_failure (E : env) (list_id : string) (members : list string)
  : option exn :=
  match members with
  | [] => None
  | member :: rest =>
      match unsubscribe E list_id member with
      | inl e => Some e
      | inr _ => first_failure E list_id rest
      end
  end.


(** [d.get(k)] on a dict given by its items. *)
Fixpoint dict_get {A} (d : list (string * A)) (k : string) : option A :=
  match d with
  | [] => None
  | (k', v) :: d' => if String.eqb k' k then Some v else dict_get d' k
  end.


(** What the loop of [_get_mail_host] has established after the mail hosts
    [seen]: the hosts collected are those of [seen] whose site is the web
    host, each once, and the flag tells whether a host of [seen] has no
    [MailDomain]. *)
Definition collected (site_of : string -> option string) (web_host : string)
    (seen : list string) (acc : list string * bool) : Prop :=
  List.NoDup (fst acc) /\
  (forall x : string, In x (fst acc) <-> In x seen /\ site_of x = Some web_host) /\
  (snd acc = true <-> exists d : string, In d seen /\ site_of d = None).


(** ** More sample inputs *)

Module Cases.

(** The random source starts over while the token [0a] is in the store. *)
Definition replayed : world :=
  {| cache := cache Sample.requested; now := 1000; drawn := 0;
     trace := []; messages := [] |}.


(** The link whose token names the marker of the pending request. *)
Definition marker_link : request := Sample.link "x.example.com_a@example.com".

(** The logged-in user owns the sample address and no other. *)
Definition owned (email : string) : nat :=
  if String.eqb email Sample.addr then 1%nat else 0%nat.

(** Two mail hosts with a [MailDomain], each on a site of its own. *)
Definition site_of (mail_host : string) : option string :=
  if String.eqb mail_host "lists.example.com" then Some "www.example.com"
  else if String.eqb mail_host "lists.example.org" then Some "www.example.org"
  else None.

(** A moderation form that names two actions. *)
Definition moderated : request :=
  {| POST := <["defer" := "1"]> (<["accept" := "1"]> ∅); GET := ∅ |}.

(** The core finds every list and accepts every moderation. *)
Definition found (list_id : string) : exn + string := inr list_id.
Definition accepted (request_id action : string) (reason : option string)
  : exn + unit := inr tt.
Definition reason_of (e : exn) : string := exn_str e.

(** Lists given by an id and a serial number. *)
Definition listed : list (string * nat) :=
  [("x.example.com", 1%nat); ("y.example.com", 2%nat); ("x.example.com", 3%nat)].

End Cases.


(** [remove_role], for a list that was found. [roster] holds the addresses
    of the roster of the role, [user_emails] the verified addresses of the
    user, [is_post] tells the method, and [remove] is the call
    [the_list.remove_role(role, address)] of the core. *)
Definition CONFIRM_REMOVE_ROLE : string := "postorius/lists/confirm_remove_role.html".
Definition LAST_OWNER : string := "Removing the last owner is impossible".
Definition not_in_group (address role : string) : string :=
  "The user " +:+ address +:+ " is not in the " +:+ role +:+ " group".
Definition could_not_remove (msg : string) : string :=
  "The user could not be removed: " +:+ msg.
Definition removed_from_group (address role : string) : string :=
  "The user " +:+ address +:+ " has been removed from the " +:+ role +:+ " group.".

Definition is_HTTPError (e : exn) : bool :=
  match e with
  | HTTPError _ => true
  | _ => false
  end.

Definition remove_role (roster user_emails : list string) (remove : M unit)
    (list_id role address : string) (is_post : bool) : M reply :=
  let all_emails := roster in
  if negb (bool_decide (address ∈ all_emails)) then
    messages_error (not_in_group address role);;
    ret (RedirectTo "list_members" [list_id; role])
  else if bool_decide (role = "owner") && Nat.eqb (length roster) 1 then
    messages_error LAST_OWNER;;
    ret (RedirectTo "list_members" [list_id; role])
  else
    let redirect_on_success :=
      if bool_decide (role = "owner") && bool_decide (address ∈ user_emails)
      then RedirectTo "list_summary" [list_id]
      else RedirectTo "list_members" [list_id; role] in
    if is_post then
      removal <- attempt remove;;
      match removal with
      | inl e =>
          if is_HTTPError e then
            messages_error (could_not_remove (exn_str e));;
            ret (RedirectTo "list_members" [list_id; role])
          else raise e
      | inr _ =>
          messages_success (removed_from_group address role);;
          ret redirect_on_success
      end
    else ret (Render CONFIRM_REMOVE_ROLE).

(** [ListAnonymousSubscribeView.post]. [cleaned] holds the address and the
    display name of a valid form, [None] for a form that is not valid, and
    [subscribe] is the call [mailing_list.subscribe(...)] of the core. *)
Module ListAnonymousSubscribeView.

Definition CHECK_INBOX : string :=
  "Please check your inbox for further instructions,Or you have already subscribed successfully.".

Definition post (cleaned : option (string * string))
    (subscribe : string -> string -> M unit) (list_id : string) : M response :=
  try_except
    (match cleaned with
     | Some (email, display_name) =>
         subscribe email display_name;;
         messages_success CHECK_INBOX
     | None => messages_error INVALID_EMAIL
     end)
    is_HTTPError
    (fun e => messages_success CHECK_INBOX);;
  ret (redirect "list_summary" list_id).

End ListAnonymousSubscribeView.


(** ** A sample input for the lookup of the account *)

Module Outage.


End Outage.


(** * Properties *)

(** ** The token issuer *)

Section Issuer.

Variable E : env.

Lemma after_draws_0 w : after_draws 0 w = w.
Proof. by destruct w. Qed.

Lemma after_draws_S k w : after_draws k (after_draws 1 w) = after_draws (S k) w.
Proof. unfold after_draws; simpl. f_equal. lia. Qed.

(** One round of the loop. *)
Lemma get_uuid_loop_S (n : nat) (w : world) :
  get_uuid_loop E (S n) w =
  if collides w (candidate E w 0)
  then get_uuid_loop E n (after_draws 1 w)
  else (inr (candidate E w 0), after_draws 1 w).
Proof.
  unfold collides, candidate. rewrite Nat.add_0_r.
  cbn [get_uuid_loop]. unfold bind, _next_unpredictable_id, cache_has_key.
  cbn [cache now].
  by destruct (has_key (cache w) (now w) (cache_key_format (next_id E (drawn w)))).
Qed.

(** The loop with [n] rounds left stops after [k <= n] draws, touching
    nothing but the counter of draws: either the [k]-th candidate is free and
    returned, all earlier ones colliding, or all [n] collide and it raises. *)
Lemma get_uuid_loop_spec (n : nat) (w : world) :
  ∃ k : nat,
    (k ≤ n)%nat ∧
    snd (get_uuid_loop E n w) = after_draws k w ∧
    (∀ i : nat, (i < k - 1)%nat → collides w (candidate E w i) = true) ∧
    ((∃ j : nat, k = S j ∧
        fst (get_uuid_loop E n w) = inr (candidate E w j) ∧
        collides w (candidate E w j) = false)
     ∨ (k = n ∧ fst (get_uuid_loop E n w) = inl EXHAUSTED ∧
        ∀ i : nat, (i < n)%nat → collides w (candidate E w i) = true)).
Proof.
  revert w. induction n as [|n IH]; intros w.
  - exists 0%nat. rewrite after_draws_0. simpl.
    repeat split; try lia. right. repeat split; intros; lia.
  - rewrite get_uuid_loop_S.
    destruct (collides w (candidate E w 0)) eqn:H0.
    + set (w1 := after_draws 1 w).
      destruct (IH w1) as (k & Hle & Hsnd & Hbefore & Hcases).
      assert (Hcand : ∀ i, candidate E w1 i = candidate E w (S i)).
      { intros i. unfold candidate, w1. simpl. f_equal. lia. }
      assert (Hcol : ∀ t, collides w1 t = collides w t) by done.
      exists (S k). split; [lia|]. split.
      { rewrite Hsnd. apply after_draws_S. }
      split.
      { intros i Hi. destruct i as [|i]; [done|].
        rewrite <- Hcand, <- Hcol. apply Hbefore. lia. }
      destruct Hcases as [(j & -> & Hfst & Hfree) | (-> & Hfst & Hfull)].
      * left. exists (S j). rewrite <- Hcand, <- Hcol. by rewrite Hfst.
      * right. repeat split; [done|].
        intros i Hi. destruct i as [|i]; [done|].
        rewrite <- Hcand, <- Hcol. apply Hfull. lia.
    + exists 1%nat. split; [lia|]. split; [done|].
      split; [intros; lia|].
      left. by exists 0%nat.
Qed.

(** What a caller of [get_uuid] relies on. *)
Lemma get_uuid_run (w : world) :
  ∃ k : nat,
    (k ≤ 5)%nat ∧ snd (get_uuid E w) = after_draws k w ∧
    ∀ token : string, fst (get_uuid E w) = inr token → collides w token = false.
Proof.
  unfold get_uuid.
  destruct (get_uuid_loop_spec 5 w) as (k & Hle & Hsnd & _ & Hcases).
  exists k. split; [done|]. split; [done|].
  intros token Htoken.
  destruct Hcases as [(j & _ & Hfst & Hfree) | (_ & Hfst & _)];
    rewrite Hfst in Htoken; [by injection Htoken as <-|done].
Qed.

(** C6. Token issuer bound and postcondition. [get_uuid] draws at most five
    candidates and changes nothing else in the world, so it writes nothing to
    the store, whether it returns or raises; a returned token has no visible
    key in the store; if the five candidates all collide it raises the
    [RuntimeError] of exhaustion, and it raises in that case only. *)
Theorem get_uuid_bounded_fresh (w : world) :
  (∃ k : nat, (k ≤ 5)%nat ∧ snd (get_uuid E w) = after_draws k w) ∧
  cache (snd (get_uuid E w)) = cache w ∧
  cache_writes (trace (snd (get_uuid E w))) = cache_writes (trace w) ∧
  (∀ token : string,
      fst (get_uuid E w) = inr token → collides w token = false) ∧
  ((∀ i : nat, (i < 5)%nat → collides w (candidate E w i) = true) →
      fst (get_uuid E w) = inl EXHAUSTED) ∧
  (∀ e : exn,
      fst (get_uuid E w) = inl e →
      e = EXHAUSTED ∧
      snd (get_uuid E w) = after_draws 5 w ∧
      ∀ i : nat, (i < 5)%nat → collides w (candidate E w i) = true).
Proof.
  unfold get_uuid.
  destruct (get_uuid_loop_spec 5 w) as (k & Hle & Hsnd & Hbefore & Hcases).
  rewrite Hsnd. split; [by exists k|].
  split; [done|]. split; [done|].
  destruct Hcases as [(j & -> & Hfst & Hfree) | (-> & Hfst & Hfull)];
    rewrite Hfst.
  - split; [by intros token [= <-]|].
    split; [|by intros e [=]].
    intros Hall. rewrite Hall in Hfree; [done|lia].
  - split; [by intros token [=]|].
    split; [done|]. by intros e [= <-].
Qed.

End Issuer.

(** ** Traces *)

Lemma mails_app (a b : list event) : mails (a ++ b) = mails a ++ mails b.
Proof.
  induction a as [|[] a IH]; simpl; try done. by rewrite IH.
Qed.

Lemma cache_writes_app (a b : list event) :
  cache_writes (a ++ b) = cache_writes a ++ cache_writes b.
Proof.
  induction a as [|[] a IH]; simpl; try done; by rewrite IH.
Qed.

Lemma unsubscriptions_app (a b : list event) :
  unsubscriptions (a ++ b) = unsubscriptions a ++ unsubscriptions b.
Proof.
  induction a as [|[] a IH]; simpl; try done. by rewrite IH.
Qed.

(** ** The cache *)

Lemma peek_absent c t key : c !! key = None → peek c t key = None.
Proof. unfold peek. by intros ->. Qed.

Lemma peek_expired c t key e :
  c !! key = Some e → expires e ≤ t → peek c t key = None.
Proof.
  unfold peek, live. intros -> Hle.
  destruct (Z.ltb_spec t (expires e)); [lia|done].
Qed.

(** An entry that is not visible now is not visible later. *)
Lemma has_key_later c (t t' : Z) key :
  t ≤ t' → has_key c t key = false → has_key c t' key = false.
Proof.
  unfold has_key, peek, live. intros Hle.
  destruct (c !! key) as [e|]; [|done].
  destruct (Z.ltb_spec t (expires e)); [done|].
  destruct (Z.ltb_spec t' (expires e)); [lia|done].
Qed.

Lemma not_extended {A} (l : list A) (x : A) : l ≠ l ++ [x].
Proof.
  intros H. apply (f_equal length) in H. rewrite length_app in H.
  simpl in H. lia.
Qed.

(** ** Confirmation *)

Section Confirmation.

Import AnonymousUnsubscribeView.

Variable E : env.
Variable list_id : string.

(** A visit with a token that has no visible entry is turned down. *)
Lemma get_no_entry (request : request) (token : string) (w : world) :
  GET request !! "token" = Some token →
  peek (cache w) (now w) (cache_key_format token) = None →
  get E list_id request w = (inr (Redirect "list_summary" list_id), turned_down w).
Proof.
  intros Htok Hpeek. unfold get. rewrite Htok. run. by rewrite Hpeek.
Qed.

(** A visit that finds the payload and the marker of the served list: the
    core is called for the served list and the address of the payload, both
    keys are deleted whatever the core answers, and an exception of the core
    other than a [ValueError] leaves the handler after the deletion. *)
Lemma get_payload_and_marker (request : request) (token email : string)
    (d : gmap string string) (w : world) :
  GET request !! "token" = Some token →
  peek (cache w) (now w) (cache_key_format token) = Some (Dumped (JObj d)) →
  d !! "email" = Some email →
  is_Some (d !! "list_id") →
  has_key (cache w) (now w) (pending_key list_id email) = true →
  let w' := consumed list_id email token w in
  get E list_id request w =
  match unsubscribe E list_id email, told email (unsubscribe E list_id email) with
  | _, Some (Message lv s) =>
      (inr (Redirect "list_summary" list_id), record_message lv s w')
  | inl e, None => (inl e, w')
  | inr _, None => (inr (Redirect "list_summary" list_id), w')
  end.
Proof.
  intros Htok Hpeek Hemail [lid Hlid] Hmark. unfold get. rewrite Htok. run.
  rewrite Hpeek. cbn [truthy json_loads]. run.
  rewrite Hemail, Hlid. cbn [bool_decide]. 
  rewrite !bool_decide_eq_true_2 by eauto. run.
  rewrite Hmark. run. unfold consumed, told.
  destruct (unsubscribe E list_id email) as [e|[r|]]; run.
  - destruct (is_ValueError e); run; settle.
  - destruct (r !! "token"); run; settle.
  - settle.
Qed.

(** A visit that finds the payload but no marker is turned down. *)
Lemma get_payload_no_marker (request : request) (token email : string)
    (d : gmap string string) (w : world) :
  GET request !! "token" = Some token →
  peek (cache w) (now w) (cache_key_format token) = Some (Dumped (JObj d)) →
  d !! "email" = Some email →
  is_Some (d !! "list_id") →
  has_key (cache w) (now w) (pending_key list_id email) = false →
  get E list_id request w = (inr (Redirect "list_summary" list_id), turned_down w).
Proof.
  intros Htok Hpeek Hemail [lid Hlid] Hmark. unfold get. rewrite Htok. run.
  rewrite Hpeek. cbn [truthy json_loads]. run.
  rewrite Hemail, Hlid.
  rewrite !bool_decide_eq_true_2 by eauto. run.
  by rewrite Hmark.
Qed.

(** The store and the trace after such a visit do not depend on the answer
    of the core. *)
Lemma get_consumes (request : request) (token email : string)
    (d : gmap string string) (w : world) :
  GET request !! "token" = Some token →
  peek (cache w) (now w) (cache_key_format token) = Some (Dumped (JObj d)) →
  d !! "email" = Some email →
  is_Some (d !! "list_id") →
  has_key (cache w) (now w) (pending_key list_id email) = true →
  cache (snd (get E list_id request w)) = cache (consumed list_id email token w) ∧
  trace (snd (get E list_id request w)) = trace (consumed list_id email token w) ∧
  now (snd (get E list_id request w)) = now w ∧
  drawn (snd (get E list_id request w)) = drawn w.
Proof.
  intros Htok Hpeek Hemail Hlid Hmark.
  rewrite (get_payload_and_marker request token email d w) by done.
  unfold told.
  destruct (unsubscribe E list_id email) as [err|[r|]];
    [destruct (is_ValueError err) | destruct (r !! "token") | ]; done.
Qed.

(** Every visit either leaves the cache alone and calls nothing, or it is a
    visit that found payload and marker and consumed them. *)
Lemma get_quiet_or_consumed (request : request) (w : world) :
  (cache (snd (get E list_id request w)) = cache w ∧
   unsubscriptions (trace (snd (get E list_id request w)))
     = unsubscriptions (trace w) ∧
   cache_writes (trace (snd (get E list_id request w)))
     = cache_writes (trace w))
  ∨ (∃ (token email : string) (d : gmap string string),
       GET request !! "token" = Some token ∧
       peek (cache w) (now w) (cache_key_format token) = Some (Dumped (JObj d)) ∧
       d !! "email" = Some email ∧
       is_Some (d !! "list_id") ∧
       has_key (cache w) (now w) (pending_key list_id email) = true).
Proof.
  destruct (GET request !! "token") as [token|] eqn:Htok.
  2:{ left. unfold get. rewrite Htok. run. done. }
  destruct (peek (cache w) (now w) (cache_key_format token)) as [t|] eqn:Hpeek.
  2:{ left. by rewrite (get_no_entry _ token). }
  destruct t as [[d|a]|s].
  - destruct (d !! "email") as [email|] eqn:Hemail.
    + destruct (d !! "list_id") as [lid|] eqn:Hlid.
      * destruct (has_key (cache w) (now w) (pending_key list_id email)) eqn:Hm.
        -- right. exists token, email, d. eauto 10.
        -- left. by rewrite (get_payload_no_marker _ token email d).
      * left. unfold get. rewrite Htok. run. rewrite Hpeek.
        cbn [truthy json_loads]. run. rewrite Hemail, Hlid.
        rewrite bool_decide_eq_true_2, bool_decide_eq_false_2 by
          (eauto; by intros [? ?]).
        run. done.
    + left. unfold get. rewrite Htok. run. rewrite Hpeek.
      cbn [truthy json_loads]. run. rewrite Hemail.
      rewrite bool_decide_eq_false_2 by (by intros [? ?]). run. done.
  - left. unfold get. rewrite Htok. run. rewrite Hpeek.
    cbn [truthy json_loads]. run. done.
  - left. unfold get. rewrite Htok. run. rewrite Hpeek.
    destruct s; cbn [truthy json_loads]; run; [done|].
    rewrite unsubscriptions_app, cache_writes_app. simpl.
    by rewrite !app_nil_r.
Qed.

Lemma lookup_delete_delete (c : gmap string entry) (a b : string) :
  delete a (delete b c) !! a = None ∧ delete a (delete b c) !! b = None.
Proof.
  split; [apply lookup_delete_eq|].
  apply lookup_delete_None. right. apply lookup_delete_eq.
Qed.

End Confirmation.

(** The sample worlds are what the request view leaves behind. *)
Example requested_is_reached :
  let w := snd (AnonymousUnsubscribeEmailView.post Sample.reachable
                  "x.example.com" (Sample.form "a@example.com") Sample.idle) in
  cache w = cache Sample.requested ∧ drawn w = drawn Sample.requested.
Proof. vm_compute. done. Qed.

Example requested_both_is_reached :
  let w1 := snd (AnonymousUnsubscribeEmailView.post Sample.reachable
                   "x.example.com" (Sample.form "a@example.com") Sample.idle) in
  let w2 := snd (AnonymousUnsubscribeEmailView.post Sample.reachable
                   "y.example.com" (Sample.form "a@example.com") w1) in
  cache w2 = cache Sample.requested_both ∧ drawn w2 = drawn Sample.requested_both.
Proof. vm_compute. done. Qed.

(** ** The confirmation view *)

Section ConfirmationClaims.

Import AnonymousUnsubscribeView.

(** C5. Expired equals never-issued. A visit with a token whose key was
    never written (or was deleted) and a visit with a token whose entry has
    outlived its lifetime get the same answer: the redirect with the one
    message that the token expired or is invalid; neither calls the
    unsubscribe operation, neither writes to the store. *)
Theorem expired_is_never_issued (E : env) (list_id : string) (request : request)
    (token : string) (w1 w2 : world) (e : entry) :
  GET request !! "token" = Some token →
  cache w1 !! cache_key_format token = None →
  cache w2 !! cache_key_format token = Some e →
  expires e ≤ now w2 →
  let out1 := get E list_id request w1 in
  let out2 := get E list_id request w2 in
  fst out1 = inr (Redirect "list_summary" list_id) ∧
  fst out2 = fst out1 ∧
  messages (snd out1) = messages w1 ++ [Message ERROR TOKEN_INVALID] ∧
  messages (snd out2) = messages w2 ++ [Message ERROR TOKEN_INVALID] ∧
  trace (snd out1) = trace w1 ∧
  trace (snd out2) = trace w2 ∧
  cache (snd out1) = cache w1 ∧
  cache (snd out2) = cache w2.
Proof.
  intros Htok Hnone Hsome Hexp out1 out2. unfold out1, out2.
  rewrite (get_no_entry E list_id request token w1 Htok (peek_absent _ _ _ Hnone)).
  rewrite (get_no_entry E list_id request token w2 Htok
             (peek_expired _ _ _ _ Hsome Hexp)).
  done.
Qed.

(** C10. Payload without marker. When the payload of the token is visible
    but the marker of the served list and the address of the payload is not,
    the visit is answered with the message that the token expired or is
    invalid, the unsubscribe operation is not called and nothing is written
    or deleted: the entry of the token stays as it was. *)
Theorem payload_without_marker_is_rejected (E : env) (list_id : string)
    (request : request) (token email lid : string) (d : gmap string string)
    (w : world) :
  GET request !! "token" = Some token →
  peek (cache w) (now w) (cache_key_format token) = Some (Dumped (JObj d)) →
  d !! "email" = Some email →
  d !! "list_id" = Some lid →
  has_key (cache w) (now w) (pending_key list_id email) = false →
  let out := get E list_id request w in
  fst out = inr (Redirect "list_summary" list_id) ∧
  messages (snd out) = messages w ++ [Message ERROR TOKEN_INVALID] ∧
  trace (snd out) = trace w ∧
  cache (snd out) = cache w ∧
  now (snd out) = now w ∧
  peek (cache (snd out)) (now (snd out)) (cache_key_format token)
    = Some (Dumped (JObj d)).
Proof.
  intros Htok Hpeek Hemail Hlid Hmark out. unfold out.
  rewrite (get_payload_no_marker E list_id request token email d w) by eauto.
  done.
Qed.

(** C3. Guaranteed cleanup. A visit that finds the payload and the marker
    deletes both keys whatever the unsubscribe operation does: when it
    answers, when it raises a [ValueError], which the user is shown as an
    error message, and when it raises anything else, which leaves the view as
    the exception of the request. *)
Theorem both_keys_deleted_on_every_exit (E : env) (list_id : string)
    (request : request) (token email lid : string) (d : gmap string string)
    (w : world) :
  GET request !! "token" = Some token →
  peek (cache w) (now w) (cache_key_format token) = Some (Dumped (JObj d)) →
  d !! "email" = Some email →
  d !! "list_id" = Some lid →
  has_key (cache w) (now w) (pending_key list_id email) = true →
  let out := get E list_id request w in
  let key := pending_key list_id email in
  let tkey := cache_key_format token in
  cache (snd out) !! key = None ∧
  cache (snd out) !! tkey = None ∧
  (∀ t : Z, has_key (cache (snd out)) t key = false ∧
            has_key (cache (snd out)) t tkey = false) ∧
  cache_writes (trace (snd out))
    = cache_writes (trace w) ++ [CacheDelete key; CacheDelete tkey] ∧
  match unsubscribe E list_id email with
  | inr _ =>
      fst out = inr (Redirect "list_summary" list_id) ∧
      ∃ s : string, messages (snd out) = messages w ++ [Message SUCCESS s]
  | inl err =>
      if is_ValueError err then
        fst out = inr (Redirect "list_summary" list_id) ∧
        messages (snd out) = messages w ++ [Message ERROR (exn_str err)]
      else
        fst out = inl err ∧ messages (snd out) = messages w
  end.
Proof.
  intros Htok Hpeek Hemail Hlid Hmark out key tkey. unfold out.
  rewrite (get_payload_and_marker E list_id request token email d w) by eauto.
  pose proof (lookup_delete_delete (cache w) tkey key) as [Ht Hk].
  assert (Hwr : cache_writes (trace (consumed list_id email token w))
                = cache_writes (trace w) ++ [CacheDelete key; CacheDelete tkey]).
  { unfold consumed. cbn [trace]. by rewrite cache_writes_app. }
  assert (Hgone : ∀ t : Z,
            has_key (cache (consumed list_id email token w)) t key = false ∧
            has_key (cache (consumed list_id email token w)) t tkey = false).
  { intros t. unfold has_key, peek, consumed. cbn [cache].
    fold key tkey. by rewrite Ht, Hk. }
  unfold told.
  destruct (unsubscribe E list_id email) as [err|[r|]];
    [destruct (is_ValueError err) | destruct (r !! "token") | ];
    cbn [fst snd];
    (split; [exact Hk|]); (split; [exact Ht|]); (split; [exact Hgone|]);
    (split; [exact Hwr|]); eauto.
Qed.

(** C2. Tokens are single-use. After a visit that called the unsubscribe
    operation (it found both keys and deleted them), a visit with the same
    token, on the store as the first one left it, is answered with the
    message that the token expired or is invalid and does not call the
    unsubscribe operation; this holds at any later time, for any served list
    and whatever the collaborators do. *)
Theorem consumed_token_is_rejected (E1 E2 : env) (list1 list2 : string)
    (request : request) (token : string) (w w2 : world) :
  GET request !! "token" = Some token →
  unsubscriptions (trace (snd (get E1 list1 request w)))
    ≠ unsubscriptions (trace w) →
  cache w2 = cache (snd (get E1 list1 request w)) →
  let again := get E2 list2 request w2 in
  fst again = inr (Redirect "list_summary" list2) ∧
  messages (snd again) = messages w2 ++ [Message ERROR TOKEN_INVALID] ∧
  unsubscriptions (trace (snd again)) = unsubscriptions (trace w2) ∧
  trace (snd again) = trace w2 ∧
  cache (snd again) = cache w2.
Proof.
  intros Htok Hcalled Hsame again. unfold again.
  destruct (get_quiet_or_consumed E1 list1 request w)
    as [(_ & Hquiet & _) | (token' & email & d & Htok' & Hpeek & Hemail & Hlid & Hmark)];
    [done|].
  rewrite Htok in Htok'. injection Htok' as <-.
  destruct (get_consumes E1 list1 request token email d w) as (Hcache & _);
    [done..|].
  assert (Hgone : cache w2 !! cache_key_format token = None).
  { rewrite Hsame, Hcache. unfold consumed. cbn [cache].
    apply lookup_delete_eq. }
  by rewrite (get_no_entry E2 list2 request token w2 Htok (peek_absent _ _ _ Hgone)).
Qed.

(** C8, as the code has it. A visit that finds the payload of the token,
    with an address and a list id in it, and the marker of the served list
    and that address, calls the unsubscribe operation once, for the served
    list and the address of the payload, and deletes the key of the token and
    the marker of the served list and that address. The list id of the
    payload is required to be there and is not looked at. *)
Theorem confirmation_acts_on_served_list (E : env) (list_id : string)
    (request : request) (token email lid : string) (d : gmap string string)
    (w : world) :
  GET request !! "token" = Some token →
  peek (cache w) (now w) (cache_key_format token) = Some (Dumped (JObj d)) →
  d !! "email" = Some email →
  d !! "list_id" = Some lid →
  has_key (cache w) (now w) (pending_key list_id email) = true →
  let out := get E list_id request w in
  unsubscriptions (trace (snd out))
    = unsubscriptions (trace w) ++ [(list_id, email)] ∧
  cache_writes (trace (snd out))
    = cache_writes (trace w)
        ++ [CacheDelete (pending_key list_id email);
            CacheDelete (cache_key_format token)] ∧
  cache (snd out)
    = delete (cache_key_format token)
        (delete (pending_key list_id email) (cache w)).
Proof.
  intros Htok Hpeek Hemail Hlid Hmark out. unfold out.
  destruct (get_consumes E list_id request token email d w)
    as (-> & -> & _); [eauto..|].
  unfold consumed. cbn [cache trace].
  by rewrite unsubscriptions_app, cache_writes_app.
Qed.

End ConfirmationClaims.

(** ** The request view, step by step *)

Section Request.

Import AnonymousUnsubscribeEmailView.

Variable E : env.
Variable list_id : string.

Lemma send_email_run (email token : string) (w : world) :
  send_email E email list_id token w =
  (send_mail E (mail_for E list_id email token),
   record_event (SendMail (mail_for E list_id email token)) w).
Proof.
  unfold send_email, send_message. run. fold (mail_for E list_id email token).
  by destruct (send_mail E (mail_for E list_id email token)) as [e|[]].
Qed.

Lemma post_run (request : request) (email : string) (w : world) :
  POST request !! "email" = Some email →
  post E list_id request w = post_tree E list_id email w.
Proof.
  intros Hemail. unfold post, post_tree. run. rewrite Hemail.
  destruct (re_match email); run; [|done].
  destruct (get_user E email) as [e|u]; run.
  { by destruct e. }
  destruct (has_pending_unsub_req E list_id email); run; [done|].
  destruct (has_key (cache w) (now w) (pending_key list_id email)); run; [done|].
  destruct (get_uuid E w) as [[e|token] wi]; run; [done|].
  rewrite send_email_run. run.
  destruct (send_mail E (mail_for E list_id email token)) as [e|u']; run; [done|].
  unfold pending_stored, payload_of. settle.
Qed.

(** The issuer hands back the world it was given, some draws later. *)
Lemma get_uuid_world (w : world) :
  ∃ k : nat, snd (get_uuid E w) = after_draws k w ∧
    ∀ token : string,
      fst (get_uuid E w) = inr token →
      has_key (cache w) (now w) (cache_key_format token) = false.
Proof.
  destruct (get_uuid_run E w) as (k & _ & Hsnd & Hfree). by exists k.
Qed.

End Request.

(** ** The request view *)

Section RequestClaims.

Import AnonymousUnsubscribeEmailView.

(** Case analysis of a run of the request view: the issuer's world is
    replaced by the world it stands for. *)
Ltac post_cases E list_id email w :=
  let k := fresh "k" in
  let Hsnd := fresh "Hsnd" in
  let Hfree := fresh "Hfree" in
  let issued := fresh "issued" in
  let wi := fresh "wi" in
  unfold post_tree;
  destruct (re_match email) eqn:Hvalid; cbn [negb];
  [ destruct (get_user E email) as [[]|[]] eqn:Huser;
    [ ..
    | destruct (has_pending_unsub_req E list_id email) eqn:Hcore;
      [ | destruct (has_key (cache w) (now w) (pending_key list_id email))
            eqn:Hmarker;
          [ | destruct (get_uuid_world E w) as (k & Hsnd & Hfree);
              destruct (get_uuid E w) as [issued wi] eqn:Hissue;
              cbn [fst snd] in Hsnd, Hfree; subst wi;
              destruct issued as [err|token];
              [ | pose proof (Hfree token eq_refl);
                  destruct (send_mail E (mail_for E list_id email token))
                    as [err|[]] eqn:Hsend ] ] ] ]
  | ];
  cbn [fst snd].

(** C4. A failed send leaves nothing pending. When the request view hands
    a mail to the transport and the transport fails, the view answers that
    the mail could not be sent and has written nothing: the marker of the
    list and the address is not visible, now or later, and neither is the key
    of the token that had been issued for the mail. *)
Theorem failed_send_leaves_nothing_pending (E : env) (list_id : string)
    (request : request) (email : string) (w : world) (m : mail) (e : exn) :
  POST request !! "email" = Some email →
  mails (trace (snd (post E list_id request w))) = mails (trace w) ++ [m] →
  send_mail E m = inl e →
  let out := post E list_id request w in
  fst out = inr (Redirect "list_summary" list_id) ∧
  messages (snd out) = messages w ++ [Message ERROR SEND_FAILED] ∧
  cache (snd out) = cache w ∧
  cache_writes (trace (snd out)) = cache_writes (trace w) ∧
  (∀ t : Z, now w ≤ t →
     has_key (cache (snd out)) t (pending_key list_id email) = false) ∧
  ∃ token : string,
    fst (get_uuid E w) = inr token ∧
    m = mail_for E list_id email token ∧
    ∀ t : Z, now w ≤ t →
      has_key (cache (snd out)) t (cache_key_format token) = false.
Proof.
  intros Hemail Hmail Hdown out. unfold out. revert Hmail.
  rewrite (post_run E list_id request email w Hemail).
  post_cases E list_id email w; unfold failed, pending_stored; settle;
    rewrite ?mails_app; cbn [mails]; rewrite ?app_nil_r; intros Hmail;
    try (by destruct (not_extended _ _ Hmail)).
  - apply app_inv_head in Hmail. injection Hmail as <-.
    rewrite cache_writes_app. cbn [cache_writes]. rewrite app_nil_r.
    repeat split; try done.
    + intros t Ht. by apply (has_key_later _ (now w)).
    + exists token. repeat split; try done.
      intros t Ht. by apply (has_key_later _ (now w)).
  - apply app_inv_head in Hmail. injection Hmail as <-. congruence.
Qed.

(** C9. Shared lifetime. A request whose mail was handed to the transport
    and accepted writes the marker and the payload of the token, in this
    order and nothing else, both with the timeout
    [VERIFICATION_CODE_EXPIRATION]; the two entries expire at the same
    instant. *)
Theorem marker_and_payload_share_ttl (E : env) (list_id : string)
    (request : request) (email : string) (w : world) (m : mail) :
  POST request !! "email" = Some email →
  mails (trace (snd (post E list_id request w))) = mails (trace w) ++ [m] →
  send_mail E m = inr tt →
  let out := post E list_id request w in
  let ttl := VERIFICATION_CODE_EXPIRATION E in
  let key := pending_key list_id email in
  ∃ token : string,
    fst (get_uuid E w) = inr token ∧
    m = mail_for E list_id email token ∧
    fst out = inr (Redirect "list_summary" list_id) ∧
    messages (snd out) = messages w ++ [Message SUCCESS ACK] ∧
    cache_writes (trace (snd out))
      = cache_writes (trace w)
          ++ [CacheSet key marker ttl;
              CacheSet (cache_key_format token) (payload_of list_id email) ttl] ∧
    (∃ en : entry, cache (snd out) !! key = Some en ∧
                   expires en = now w + ttl) ∧
    (∃ en : entry, cache (snd out) !! cache_key_format token = Some en ∧
                   value en = payload_of list_id email ∧
                   expires en = now w + ttl).
Proof.
  intros Hemail Hmail Hsent out ttl key. unfold out. revert Hmail.
  rewrite (post_run E list_id request email w Hemail).
  post_cases E list_id email w; unfold failed, pending_stored; settle;
    rewrite ?mails_app; cbn [mails]; rewrite ?app_nil_r; intros Hmail;
    try (by destruct (not_extended _ _ Hmail)).
  - apply app_inv_head in Hmail. injection Hmail as <-. congruence.
  - apply app_inv_head in Hmail. injection Hmail as <-.
    exists token. rewrite !cache_writes_app. cbn [cache_writes]. fold key.
    repeat split; try done.
    + destruct (decide (cache_key_format token = key)) as [Heq|Hne].
      * rewrite Heq, lookup_insert_eq. eauto.
      * rewrite lookup_insert_ne, lookup_insert_eq by done. eauto.
    + rewrite lookup_insert_eq. eauto.
Qed.




(** C7, as the code has it. For a well-formed address the request view
    gives one and the same acknowledgment when the account is unknown to the
    core, when a request is pending already (in the core or in the store) and
    when the mail was sent. It answers otherwise when the address is
    malformed, and when no token could be issued or the transport failed. *)
Theorem acknowledgment_is_uniform (E : env) (list_id : string)
    (request : request) (email : string) (w : world) :
  POST request !! "email" = Some email →
  let out := post E list_id request w in
  let answered (lv : level) (s : string) :=
    fst out = inr (Redirect "list_summary" list_id) ∧
    messages (snd out) = messages w ++ [Message lv s] in
  (re_match email = true →
     (∃ code : Z, get_user E email = inl (HTTPError code)) →
     answered SUCCESS ACK) ∧
  (re_match email = true →
     get_user E email = inr tt →
     has_pending_unsub_req E list_id email = true ∨
     has_key (cache w) (now w) (pending_key list_id email) = true →
     answered SUCCESS ACK) ∧
  (re_match email = true →
     ∀ m : mail,
       mails (trace (snd out)) = mails (trace w) ++ [m] →
       send_mail E m = inr tt →
       answered SUCCESS ACK) ∧
  (re_match email = false → answered ERROR INVALID_EMAIL) ∧
  (re_match email = true →
     get_user E email = inr tt →
     has_pending_unsub_req E list_id email = false →
     has_key (cache w) (now w) (pending_key list_id email) = false →
     (∃ err : exn, fst (get_uuid E w) = inl err) ∨
     (∃ (m : mail) (err : exn),
         mails (trace (snd out)) = mails (trace w) ++ [m] ∧
         send_mail E m = inl err) →
     answered ERROR SEND_FAILED).
Proof.
  intros Hemail out answered. unfold answered, out.
  rewrite (post_run E list_id request email w Hemail).
  post_cases E list_id email w; unfold failed, pending_stored; settle;
    rewrite ?mails_app; cbn [mails]; rewrite ?app_nil_r;
    (split; [intros _ [code [=]] || (intros [=]) || done|]);
    (split; [try done; try (by intros _ _ [[=]|[=]])|]);
    (split; [try done; intros _ m Hm Hs;
             try (by destruct (not_extended _ _ Hm));
             apply app_inv_head in Hm; injection Hm as <-; congruence|]);
    (split; [done|]);
    try done.
  intros _ _ _ _ [[err [=]]|(m & err & Hm & Hs)].
  apply app_inv_head in Hm. injection Hm as <-. congruence.
Qed.

End RequestClaims.

(** ** The claims at the sample inputs *)

Import AnonymousUnsubscribeView AnonymousUnsubscribeEmailView.
Import Sample.

(** C6 at a source that repeats a token already in the store: the five
    candidates collide and the issuer raises. *)
Lemma get_uuid_bounded_fresh_witness :
  (∀ i : nat, (i < 5)%nat →
     collides Sample.requested (candidate Sample.stuck_source Sample.requested i)
       = true) ∧
  fst (get_uuid Sample.stuck_source Sample.requested) = inl EXHAUSTED.
Proof.
  assert (H : ∀ i : nat, (i < 5)%nat →
     collides Sample.requested (candidate Sample.stuck_source Sample.requested i)
       = true).
  { intros i _. vm_compute. reflexivity. }
  split; [exact H|].
  exact (proj1 (proj2 (proj2 (proj2 (proj2
    (get_uuid_bounded_fresh Sample.stuck_source Sample.requested))))) H).
Defined.

(** C5 at a token never issued and at the token [0a] after its lifetime. *)
Lemma expired_is_never_issued_witness :
  fst (get Sample.reachable x_list (Sample.link "0a") Sample.lapsed)
    = fst (get Sample.reachable x_list (Sample.link "0a") Sample.idle) ∧
  messages (snd (get Sample.reachable x_list (Sample.link "0a") Sample.lapsed))
    = [Message ERROR TOKEN_INVALID].
Proof.
  assert (H1 : GET (Sample.link "0a") !! "token" = Some "0a")
    by (vm_compute; reflexivity).
  assert (H2 : cache Sample.idle !! cache_key_format "0a" = None)
    by (vm_compute; reflexivity).
  assert (H3 : cache Sample.lapsed !! cache_key_format "0a"
               = Some (Entry (Sample.payload addr x_list) 1600))
    by (vm_compute; reflexivity).
  assert (H4 : expires (Entry (Sample.payload addr x_list) 1600)
               ≤ now Sample.lapsed) by (simpl; lia).
  destruct (expired_is_never_issued Sample.reachable x_list (Sample.link "0a")
              "0a" Sample.idle Sample.lapsed _ H1 H2 H3 H4)
    as (_ & Hsame & _ & Hmsg & _).
  split; [exact Hsame | exact Hmsg].
Defined.

(** C10 at the store that holds the payload of [0a] and no marker. *)
Lemma payload_without_marker_is_rejected_witness :
  let out := get Sample.reachable x_list (Sample.link "0a") Sample.unguarded in
  messages (snd out) = [Message ERROR TOKEN_INVALID] ∧
  trace (snd out) = [] ∧
  cache (snd out) = cache Sample.unguarded.
Proof.
  assert (H1 : GET (Sample.link "0a") !! "token" = Some "0a")
    by (vm_compute; reflexivity).
  assert (H2 : peek (cache Sample.unguarded) (now Sample.unguarded)
                 (cache_key_format "0a") = Some (Dumped (JObj fields)))
    by (vm_compute; reflexivity).
  assert (H3 : fields !! "email" = Some addr) by (vm_compute; reflexivity).
  assert (H4 : fields !! "list_id" = Some x_list) by (vm_compute; reflexivity).
  assert (H5 : has_key (cache Sample.unguarded) (now Sample.unguarded)
                 (pending_key x_list addr) = false)
    by (vm_compute; reflexivity).
  destruct (payload_without_marker_is_rejected Sample.reachable x_list
              (Sample.link "0a") "0a" addr x_list fields Sample.unguarded
              H1 H2 H3 H4 H5)
    as (_ & Hmsg & Htrace & Hcache & _).
  exact (conj Hmsg (conj Htrace Hcache)).
Defined.

(** C3 when the core refuses: the user reads the refusal, both keys are gone. *)
Lemma both_keys_deleted_on_every_exit_witness :
  let out := get Sample.core_refuses x_list (Sample.link "0a") Sample.requested in
  cache (snd out) !! pending_key x_list addr = None ∧
  cache (snd out) !! cache_key_format "0a" = None.
Proof.
  assert (H1 : GET (Sample.link "0a") !! "token" = Some "0a")
    by (vm_compute; reflexivity).
  assert (H2 : peek (cache Sample.requested) (now Sample.requested)
                 (cache_key_format "0a") = Some (Dumped (JObj fields)))
    by (vm_compute; reflexivity).
  assert (H3 : fields !! "email" = Some addr) by (vm_compute; reflexivity).
  assert (H4 : fields !! "list_id" = Some x_list) by (vm_compute; reflexivity).
  assert (H5 : has_key (cache Sample.requested) (now Sample.requested)
                 (pending_key x_list addr) = true)
    by (vm_compute; reflexivity).
  destruct (both_keys_deleted_on_every_exit Sample.core_refuses x_list
              (Sample.link "0a") "0a" addr x_list fields Sample.requested
              H1 H2 H3 H4 H5)
    as (Hkey & Htkey & _).
  exact (conj Hkey Htkey).
Defined.

(** C2: the link [0a] is followed twice. *)
Lemma consumed_token_is_rejected_witness :
  let visited := snd (get Sample.reachable x_list (Sample.link "0a")
                        Sample.requested) in
  let again := get Sample.reachable x_list (Sample.link "0a") visited in
  fst again = inr (Redirect "list_summary" x_list) ∧
  unsubscriptions (trace (snd again)) = unsubscriptions (trace visited).
Proof.
  assert (H1 : GET (Sample.link "0a") !! "token" = Some "0a")
    by (vm_compute; reflexivity).
  assert (H2 : unsubscriptions
                 (trace (snd (get Sample.reachable x_list (Sample.link "0a")
                                Sample.requested)))
               ≠ unsubscriptions (trace Sample.requested))
    by (vm_compute; discriminate).
  destruct (consumed_token_is_rejected Sample.reachable Sample.reachable
              x_list x_list (Sample.link "0a") "0a" Sample.requested
              (snd (get Sample.reachable x_list (Sample.link "0a")
                      Sample.requested))
              H1 H2 eq_refl)
    as (Hfst & _ & Hcalls & _).
  exact (conj Hfst Hcalls).
Defined.

(** C8, as amended, at the link [0a] followed on its own list. *)
Lemma confirmation_acts_on_served_list_witness :
  let out := get Sample.reachable x_list (Sample.link "0a") Sample.requested in
  unsubscriptions (trace (snd out)) = [(x_list, addr)].
Proof.
  assert (H1 : GET (Sample.link "0a") !! "token" = Some "0a")
    by (vm_compute; reflexivity).
  assert (H2 : peek (cache Sample.requested) (now Sample.requested)
                 (cache_key_format "0a") = Some (Dumped (JObj fields)))
    by (vm_compute; reflexivity).
  assert (H3 : fields !! "email" = Some addr) by (vm_compute; reflexivity).
  assert (H4 : fields !! "list_id" = Some x_list) by (vm_compute; reflexivity).
  assert (H5 : has_key (cache Sample.requested) (now Sample.requested)
                 (pending_key x_list addr) = true)
    by (vm_compute; reflexivity).
  exact (proj1 (confirmation_acts_on_served_list Sample.reachable x_list
                  (Sample.link "0a") "0a" addr x_list fields Sample.requested
                  H1 H2 H3 H4 H5)).
Defined.

(** C8 as stated fails: both requests are pending and the link [0a], mailed
    for [x.example.com], is followed under [y.example.com]. The payload names
    [x.example.com]; the core is asked to unsubscribe from [y.example.com],
    the marker of [y.example.com] is deleted and the marker of
    [x.example.com] stays. *)
Lemma payload_list_id_is_not_used :
  let out := get Sample.reachable y_list (Sample.link "0a") Sample.requested_both in
  peek (cache Sample.requested_both) (now Sample.requested_both)
    (cache_key_format "0a") = Some (Sample.payload addr x_list) ∧
  unsubscriptions (trace (snd out)) = [(y_list, addr)] ∧
  unsubscriptions (trace (snd out)) ≠ [(x_list, addr)] ∧
  cache_writes (trace (snd out))
    = [CacheDelete (pending_key y_list addr); CacheDelete (cache_key_format "0a")] ∧
  has_key (cache (snd out)) (now (snd out)) (pending_key x_list addr) = true.
Proof. vm_compute. repeat split; discriminate. Qed.


(** C4 when the transport is down: nothing is pending afterwards. *)
Lemma failed_send_leaves_nothing_pending_witness :
  let out := post smtp_down x_list (form addr) idle in
  messages (snd out) = [Message ERROR SEND_FAILED] ∧
  cache (snd out) = ∅.
Proof.
  assert (H1 : POST (form addr) !! "email" = Some addr)
    by (vm_compute; reflexivity).
  assert (H2 : mails (trace (snd (post smtp_down x_list (form addr) idle)))
               = mails (trace idle) ++ [mail_for smtp_down x_list addr "0a"])
    by (vm_compute; reflexivity).
  assert (H3 : send_mail smtp_down (mail_for smtp_down x_list addr "0a")
               = inl (OtherError "SMTPException" "Connection refused"))
    by reflexivity.
  destruct (failed_send_leaves_nothing_pending smtp_down x_list (form addr)
              addr idle _ _ H1 H2 H3)
    as (_ & Hmsg & Hcache & _).
  exact (conj Hmsg Hcache).
Defined.

(** C9 at the first request: both entries expire at time 1600. *)
Lemma marker_and_payload_share_ttl_witness :
  let out := post reachable x_list (form addr) idle in
  ∃ token : string,
    fst (get_uuid reachable idle) = inr token ∧
    cache_writes (trace (snd out))
      = [CacheSet (pending_key x_list addr) marker 600;
         CacheSet (cache_key_format token) (payload_of x_list addr) 600].
Proof.
  assert (H1 : POST (form addr) !! "email" = Some addr)
    by (vm_compute; reflexivity).
  assert (H2 : mails (trace (snd (post reachable x_list (form addr) idle)))
               = mails (trace idle) ++ [mail_for reachable x_list addr "0a"])
    by (vm_compute; reflexivity).
  assert (H3 : send_mail reachable (mail_for reachable x_list addr "0a") = inr tt)
    by reflexivity.
  destruct (marker_and_payload_share_ttl reachable x_list (form addr)
              addr idle _ H1 H2 H3)
    as (token & Htoken & _ & _ & _ & Hwrites & _).
  exists token. exact (conj Htoken Hwrites).
Defined.



(** C7, as amended: an unknown account cannot be told from a request that
    went through; here the request that went through. *)
Lemma acknowledgment_is_uniform_witness :
  let out := post reachable x_list (form addr) idle in
  fst out = inr (Redirect "list_summary" x_list) ∧
  messages (snd out) = messages idle ++ [Message SUCCESS ACK].
Proof.
  assert (H1 : POST (form addr) !! "email" = Some addr)
    by (vm_compute; reflexivity).
  assert (H2 : re_match addr = true) by (vm_compute; reflexivity).
  assert (H3 : mails (trace (snd (post reachable x_list (form addr) idle)))
               = mails (trace idle) ++ [mail_for reachable x_list addr "0a"])
    by (vm_compute; reflexivity).
  assert (H4 : send_mail reachable (mail_for reachable x_list addr "0a") = inr tt)
    by reflexivity.
  destruct (acknowledgment_is_uniform reachable x_list (form addr) addr idle H1)
    as (_ & _ & Hsent & _).
  exact (Hsent H2 _ H3 H4).
Defined.

(** C7 as stated fails: the same form, posted to a server whose mail
    transport is down, is answered with an error message and not with the
    acknowledgment of the request that went through; a malformed address is
    answered with yet another message. *)
Lemma failed_request_is_told_apart :
  let sent := post reachable x_list (form addr) idle in
  let unsent := post smtp_down x_list (form addr) idle in
  let malformed := post reachable x_list (form "a@example") idle in
  messages (snd sent) = [Message SUCCESS ACK] ∧
  messages (snd unsent) = [Message ERROR SEND_FAILED] ∧
  messages (snd malformed) = [Message ERROR INVALID_EMAIL] ∧
  messages (snd unsent) ≠ messages (snd sent) ∧
  messages (snd malformed) ≠ messages (snd sent).
Proof. vm_compute. repeat split; discriminate. Qed.

(** ** The matcher and the address pattern *)

Section Matcher.

Import Re.

Lemma append_head (c : ascii) (a b : string) :
  String c a +:+ b = String c (a +:+ b).
Proof. reflexivity. Qed.

Lemma append_nil_r (s : string) : s +:+ EmptyString = s.
Proof.
  induction s as [|c s IH]; [done|]. by rewrite append_head, IH.
Qed.

Lemma append_assoc (a b c : string) : (a +:+ b) +:+ c = a +:+ (b +:+ c).
Proof.
  induction a as [|x a IH]; [done|]. by rewrite !append_head, IH.
Qed.

Lemma append_empty (a b : string) :
  a +:+ b = EmptyString → a = EmptyString ∧ b = EmptyString.
Proof. destruct a; [done|]. rewrite append_head. discriminate. Qed.

Lemma append_cons (a b : string) (c : ascii) (s : string) :
  a +:+ b = String c s →
  (a = EmptyString ∧ b = String c s) ∨
  (∃ a' : string, a = String c a' ∧ s = a' +:+ b).
Proof.
  destruct a as [|x a]; [by left|]. rewrite append_head.
  intros [= -> <-]. right. by exists a.
Qed.

Lemma nullable_lang (r : regex) : nullable r = true ↔ lang r EmptyString.
Proof.
  split.
  - induction r; simpl; intros H; try discriminate.
    + constructor.
    + apply andb_true_iff in H as [H1 H2].
      change EmptyString with (EmptyString +:+ EmptyString).
      constructor; auto.
    + apply orb_true_iff in H as [H|H];
        [apply lang_alt_l | apply lang_alt_r]; auto.
    + constructor.
  - intros H. remember EmptyString as s eqn:Hs.
    induction H; simpl; try done.
    + apply append_empty in Hs as [-> ->]. rewrite IHlang1, IHlang2; done.
    + rewrite IHlang; done.
    + rewrite IHlang, orb_true_r; done.
Qed.

Lemma deriv_lang (r : regex) (c : ascii) (s : string) :
  lang (deriv c r) s ↔ lang r (String c s).
Proof.
  split.
  - revert s. induction r; simpl; intros s H.
    + inversion H.
    + inversion H.
    + destruct (p c) eqn:Hp; inversion H; subst. by constructor.
    + destruct (nullable r1) eqn:Hn.
      * inversion H as [| | | ? ? ? Hl | ? ? ? Hr | |]; subst.
        -- inversion Hl; subst.
           change (String c (s1 +:+ s2)) with (String c s1 +:+ s2).
           constructor; auto.
        -- change (String c s) with (EmptyString +:+ String c s).
           constructor; [by apply nullable_lang | auto].
      * inversion H; subst.
        change (String c (s1 +:+ s2)) with (String c s1 +:+ s2).
        constructor; auto.
    + inversion H; subst; [apply lang_alt_l | apply lang_alt_r]; auto.
    + inversion H; subst.
      change (String c (s1 +:+ s2)) with (String c s1 +:+ s2).
      constructor; auto.
  - intros H. remember (String c s) as cs eqn:Hcs. revert s Hcs.
    induction H; intros s' Hcs; simpl; try discriminate.
    + injection Hcs as -> <-. rewrite H. constructor.
    + apply append_cons in Hcs as [[-> ->] | (a' & -> & ->)].
      * apply nullable_lang in H. rewrite H.
        apply lang_alt_r. by apply IHlang2.
      * destruct (nullable r1);
          [apply lang_alt_l|]; constructor; auto.
    + apply lang_alt_l. auto.
    + apply lang_alt_r. auto.
    + apply append_cons in Hcs as [[-> ->] | (a' & -> & ->)].
      * by apply IHlang2.
      * constructor; auto.
Qed.

(** The matcher decides the language. *)
Lemma fullmatch_lang (r : regex) (s : string) :
  fullmatch r s = true ↔ lang r s.
Proof.
  revert r. induction s as [|c s IH]; intros r; simpl.
  - apply nullable_lang.
  - rewrite IH. apply deriv_lang.
Qed.

End Matcher.

Section AddressPattern.

Import Re AnonymousUnsubscribeEmailView.

Lemma lang_class_inv (p : ascii → bool) (s : string) :
  lang (Class p) s → ∃ c : ascii, s = String c EmptyString ∧ p c = true.
Proof. inversion 1; subst. eauto. Qed.

Lemma lang_star_class (p : ascii → bool) (s : string) :
  lang (Star (Class p)) s ↔ all_in p s = true.
Proof.
  split.
  - intros H. remember (Star (Class p)) as r eqn:Hr.
    induction H; try discriminate; [done|].
    injection Hr as ->.
    apply lang_class_inv in H as (c & -> & Hc).
    rewrite append_head. simpl. rewrite Hc. by apply IHlang2.
  - induction s as [|c s IH]; simpl; intros H; [constructor|].
    apply andb_true_iff in H as [Hc Hs].
    change (String c s) with (String c EmptyString +:+ s).
    constructor; [by constructor | auto].
Qed.

Lemma lang_plus_class (p : ascii → bool) (s : string) :
  lang (plus (Class p)) s ↔ s ≠ EmptyString ∧ all_in p s = true.
Proof.
  unfold plus. split.
  - inversion 1 as [| |? ? s1 s2 H1 H2| | | |]; subst.
    apply lang_class_inv in H1 as (c & -> & Hc).
    apply lang_star_class in H2. rewrite append_head.
    split; [discriminate|]. simpl. by rewrite Hc.
  - intros [Hne H]. destruct s as [|c s]; [done|].
    simpl in H. apply andb_true_iff in H as [Hc Hs].
    change (String c s) with (String c EmptyString +:+ s).
    constructor; [by constructor | by apply lang_star_class].
Qed.

Lemma lang_two_or_more_class (p : ascii → bool) (s : string) :
  lang (two_or_more (Class p)) s ↔
  (2 ≤ String.length s)%nat ∧ all_in p s = true.
Proof.
  unfold two_or_more. split.
  - inversion 1 as [| |? ? s1 s2 H1 H2| | | |]; subst.
    apply lang_class_inv in H1 as (c & -> & Hc).
    apply (lang_plus_class p s2) in H2 as [Hne Hs].
    rewrite append_head. destruct s2 as [|d s2]; [done|].
    simpl. split; [lia|]. simpl in Hs. by rewrite Hc.
  - intros [Hlen H]. destruct s as [|c [|d s]]; simpl in Hlen; try lia.
    simpl in H. apply andb_true_iff in H as [Hc Hs].
    change (String c (String d s)) with (String c EmptyString +:+ String d s).
    constructor; [by constructor|].
    apply (lang_plus_class p). by split.
Qed.

Lemma lang_dollar (s : string) :
  lang dollar s ↔ s = EmptyString ∨ s = Str.nl.
Proof.
  unfold dollar. split.
  - inversion 1 as [| | |? ? ? Hl|? ? ? Hr| |]; subst.
    + inversion Hl. by left.
    + apply lang_class_inv in Hr as (c & -> & Hc).
      apply Ascii.eqb_eq in Hc as <-. by right.
  - intros [-> | ->]; [apply lang_alt_l; constructor|].
    apply lang_alt_r. by constructor.
Qed.

(** X1. The address check of the request view accepts exactly the strings
    made of a non-empty local part over [a-zA-Z0-9._%+-], an at sign, a
    non-empty domain over [a-zA-Z0-9.-], a dot and at least two letters,
    followed by nothing or by one newline. *)
Theorem re_match_well_formed (email : string) :
  re_match email = true ↔ well_formed email.
Proof.
  unfold re_match. rewrite fullmatch_lang. unfold pattern, well_formed.
  change (fun c => alnum c || Str.one_of "._%+-" c) with local_char.
  change (fun c => alnum c || Str.one_of ".-" c) with domain_char.
  split.
  - inversion 1 as [| |? ? local r1 Hlocal H1| | | |]; subst.
    inversion H1 as [| |? ? at_ r2 Hat H2| | | |]; subst.
    inversion H2 as [| |? ? domain r3 Hdomain H3| | | |]; subst.
    inversion H3 as [| |? ? dot r4 Hdot H4| | | |]; subst.
    inversion H4 as [| |? ? tld tail Htld Htail| | | |]; subst.
    apply lang_class_inv in Hat as (c & -> & Hc).
    apply Ascii.eqb_eq in Hc as <-.
    apply lang_class_inv in Hdot as (c & -> & Hc).
    apply Ascii.eqb_eq in Hc as <-.
    apply lang_plus_class in Hlocal as [? ?].
    apply lang_plus_class in Hdomain as [? ?].
    apply lang_two_or_more_class in Htld as [? ?].
    apply lang_dollar in Htail.
    exists local, domain, tld, tail. done.
  - intros (local & domain & tld & tail & -> & ? & ? & ? & ? & ? & ? & ?).
    constructor; [by apply lang_plus_class|].
    constructor; [by constructor|].
    constructor; [by apply lang_plus_class|].
    constructor; [by constructor|].
    constructor; [by apply lang_two_or_more_class | by apply lang_dollar].
Qed.

End AddressPattern.

(** ** The token store *)

Section TokenStore.

Lemma cache_sets_app (a b : list event) :
  cache_sets (a ++ b) = cache_sets a ++ cache_sets b.
Proof.
  induction a as [|[] a IH]; simpl; try done. by rewrite IH.
Qed.

Lemma cache_deletes_app (a b : list event) :
  cache_deletes (a ++ b) = cache_deletes a ++ cache_deletes b.
Proof.
  induction a as [|[] a IH]; simpl; try done. by rewrite IH.
Qed.

Lemma peek_insert_eq c t key v (t' : Z) :
  peek (<[key := Entry v t']> c) t key = if t <? t' then Some v else None.
Proof. unfold peek, live. by rewrite lookup_insert_eq. Qed.

Lemma get_token_peek (token : string) (w : world) (d : gmap string string) :
  peek (cache w) (now w) (cache_key_format token) = Some (Dumped (JObj d)) →
  get_token token w = (inr (JObj d), w).
Proof. intros H. unfold get_token. run. by rewrite H. Qed.

Lemma get_token_none (token : string) (w : world) :
  peek (cache w) (now w) (cache_key_format token) = None →
  get_token token w = (inr (JObj ∅), w).
Proof. intros H. unfold get_token. run. by rewrite H. Qed.

(** X2. Round trip of the token store. What [set_token] stored for a token
    is what [get_token] returns for it, the address and the list id, at every
    instant before the lifetime has run out; from then on [get_token] returns
    the empty dict. Reading changes nothing. *)
Theorem set_token_get_token (E : env) (email list_id token : string)
    (w w2 : world) :
  cache w2 = cache (snd (set_token E email list_id token w)) →
  (now w2 < now w + VERIFICATION_CODE_EXPIRATION E →
     get_token token w2 = (inr (JObj (save_dict email list_id)), w2)) ∧
  (now w + VERIFICATION_CODE_EXPIRATION E ≤ now w2 →
     get_token token w2 = (inr (JObj ∅), w2)).
Proof.
  intros Hcache.
  assert (Hpeek : peek (cache w2) (now w2) (cache_key_format token)
            = if now w2 <? now w + VERIFICATION_CODE_EXPIRATION E
              then Some (Dumped (JObj (save_dict email list_id))) else None).
  { rewrite Hcache. unfold set_token. run. apply peek_insert_eq. }
  split; intros Ht.
  - apply get_token_peek. rewrite Hpeek.
    by destruct (Z.ltb_spec (now w2) (now w + VERIFICATION_CODE_EXPIRATION E));
      [|lia].
  - apply get_token_none. rewrite Hpeek.
    by destruct (Z.ltb_spec (now w2) (now w + VERIFICATION_CODE_EXPIRATION E));
      [lia|].
Qed.

(** X3. Deleting undoes storing. After [set_token] and then
    [delete_key(token, is_token=True)], [get_token] returns the empty dict
    for the token and every other key of the cache is as it was before the
    token was stored; [delete_key] returns normally. *)
Theorem delete_key_undoes_set_token (E : env) (email list_id token : string)
    (w : world) :
  let stored := snd (set_token E email list_id token w) in
  let deleted := delete_key token true stored in
  fst deleted = inr tt ∧
  fst (get_token token (snd deleted)) = inr (JObj ∅) ∧
  ∀ key : string,
    key ≠ cache_key_format token →
    cache (snd deleted) !! key = cache w !! key.
Proof.
  intros stored deleted.
  assert (Hrun : deleted =
            (inr tt,
             with_cache (delete (cache_key_format token) (cache stored))
               (record_event (CacheDelete (cache_key_format token)) stored))).
  { unfold deleted, delete_key. by run. }
  assert (Hstored : cache stored =
            <[cache_key_format token :=
                Entry (json_dumps (JObj (save_dict email list_id)))
                  (now w + VERIFICATION_CODE_EXPIRATION E)]> (cache w)).
  { unfold stored, set_token. by run. }
  rewrite Hrun. cbn [fst snd]. split; [done|]. split.
  - rewrite get_token_none; [done|]. unfold peek. cbn [cache with_cache].
    by rewrite lookup_delete_eq.
  - intros key Hne. cbn [cache with_cache]. rewrite Hstored.
    by rewrite lookup_delete_ne, lookup_insert_ne.
Qed.

Lemma length_append (a b : string) :
  String.length (a +:+ b) = (String.length a + String.length b)%nat.
Proof.
  induction a as [|c a IH]; [done|]. rewrite append_head. simpl. by rewrite IH.
Qed.

Lemma cache_key_format_longer (token : string) : token ≠ cache_key_format token.
Proof.
  intros H. apply (f_equal String.length) in H.
  unfold cache_key_format in H. rewrite length_append in H. simpl in H. lia.
Qed.

(** X4. Without [is_token], [delete_key] takes its argument as the key
    itself: called with a token and no flag, it never deletes the entry of
    that token. *)
Theorem delete_key_plain_keeps_token (token : string) (w : world) :
  cache (snd (delete_key token false w)) !! cache_key_format token
    = cache w !! cache_key_format token.
Proof.
  unfold delete_key. run.
  rewrite lookup_delete_ne; [done|]. apply cache_key_format_longer.
Qed.

End TokenStore.

(** Case analysis of the decision tree of the request view. *)
Ltac post_split E list_id email w :=
  let k := fresh "k" in
  let Hk := fresh "Hk" in
  let Hsnd := fresh "Hsnd" in
  let Hfree := fresh "Hfree" in
  let issued := fresh "issued" in
  let wi := fresh "wi" in
  unfold post_tree;
  destruct (AnonymousUnsubscribeEmailView.re_match email) eqn:Hvalid; cbn [negb];
  [ destruct (get_user E email) as [[]|[]] eqn:Huser;
    [ ..
    | destruct (has_pending_unsub_req E list_id email) eqn:Hcore;
      [ | destruct (has_key (cache w) (now w) (pending_key list_id email))
            eqn:Hmarker;
          [ | destruct (get_uuid_run E w) as (k & Hk & Hsnd & Hfree);
              destruct (get_uuid E w) as [issued wi] eqn:Hissue;
              cbn [fst snd] in Hsnd, Hfree; subst wi;
              destruct issued as [err|token];
              [ | pose proof (Hfree token eq_refl);
                  destruct (send_mail E (mail_for E list_id email token))
                    as [err|[]] eqn:Hsend ] ] ] ]
  | ];
  cbn [fst snd]; unfold failed, pending_stored; settle.

(** ** What the two views leave alone *)

Section Frames.

Import AnonymousUnsubscribeEmailView AnonymousUnsubscribeView.

Variable E : env.
Variable list_id : string.

(** A request without the field [email] raises [KeyError] at once. *)
Lemma post_no_email (request : request) (w : world) :
  POST request !! "email" = None →
  post E list_id request w = (inl (KeyError "email"), w).
Proof. intros H. unfold post. run. by rewrite H. Qed.

(** X5. What the request view never does. Whatever the form, the store
    and the collaborators, a run of the request view leaves the clock alone,
    never calls the unsubscribe operation, never deletes from the cache,
    draws at most five identifiers and hands at most one mail to the
    transport. *)
Theorem post_frame (request : request) (w : world) :
  let out := post E list_id request w in
  now (snd out) = now w ∧
  unsubscriptions (trace (snd out)) = unsubscriptions (trace w) ∧
  cache_deletes (trace (snd out)) = cache_deletes (trace w) ∧
  (drawn w ≤ drawn (snd out) ≤ drawn w + 5)%nat ∧
  (mails (trace (snd out)) = mails (trace w) ∨
   ∃ m : mail, mails (trace (snd out)) = mails (trace w) ++ [m]).
Proof.
  intros out. unfold out.
  destruct (POST request !! "email") as [email|] eqn:Hemail.
  2:{ rewrite post_no_email by done. cbn [fst snd]. repeat split; auto; lia. }
  rewrite (post_run E list_id request email w Hemail).
  post_split E list_id email w;
    rewrite ?unsubscriptions_app, ?cache_deletes_app, ?mails_app;
    cbn [unsubscriptions cache_deletes mails]; rewrite ?app_nil_r;
    repeat split; eauto; lia.
Qed.

(** X6. The store is written for a delivered mail only. A run of the
    request view that writes to the cache has issued a token, has handed the
    mail for that token to the transport, and the transport has accepted it;
    the cache then differs from the one before in the marker and in the entry
    of the token at most. *)
Theorem post_writes_after_delivery (request : request) (w : world) :
  cache_writes (trace (snd (post E list_id request w)))
    ≠ cache_writes (trace w) →
  ∃ email token : string,
    POST request !! "email" = Some email ∧
    fst (get_uuid E w) = inr token ∧
    mails (trace (snd (post E list_id request w)))
      = mails (trace w) ++ [mail_for E list_id email token] ∧
    send_mail E (mail_for E list_id email token) = inr tt ∧
    ∀ key : string,
      key ≠ pending_key list_id email →
      key ≠ cache_key_format token →
      cache (snd (post E list_id request w)) !! key = cache w !! key.
Proof.
  destruct (POST request !! "email") as [email|] eqn:Hemail.
  2:{ rewrite post_no_email by done. done. }
  rewrite (post_run E list_id request email w Hemail).
  post_split E list_id email w;
    rewrite ?cache_writes_app, ?mails_app; cbn [cache_writes mails];
    rewrite ?app_nil_r; intros Hwrites; try done.
  exists email, token. repeat split; try done.
  intros key Hk1 Hk2. by rewrite !lookup_insert_ne.
Qed.

(** X7. What the confirmation view never does. Whatever the link, the
    store and the collaborators, a run of the confirmation view leaves the
    clock alone, draws no identifier, hands no mail to the transport, sets no
    key in the cache, deletes at most two, and calls the unsubscribe
    operation at most once; every entry of the cache afterwards was there
    before. *)
Theorem get_frame (request : request) (w : world) :
  let out := get E list_id request w in
  now (snd out) = now w ∧
  drawn (snd out) = drawn w ∧
  mails (trace (snd out)) = mails (trace w) ∧
  cache_sets (trace (snd out)) = cache_sets (trace w) ∧
  (length (cache_deletes (trace (snd out)))
     ≤ length (cache_deletes (trace w)) + 2)%nat ∧
  (length (unsubscriptions (trace (snd out)))
     ≤ length (unsubscriptions (trace w)) + 1)%nat ∧
  cache (snd out) ⊆ cache w.
Proof.
  intros out. unfold out.
  assert (Hquiet : ∀ w' : world,
    now w' = now w → drawn w' = drawn w → cache w' = cache w →
    (trace w' = trace w ∨ ∃ line, trace w' = trace w ++ [LogError line]) →
    now w' = now w ∧ drawn w' = drawn w ∧
    mails (trace w') = mails (trace w) ∧
    cache_sets (trace w') = cache_sets (trace w) ∧
    (length (cache_deletes (trace w'))
       ≤ length (cache_deletes (trace w)) + 2)%nat ∧
    (length (unsubscriptions (trace w'))
       ≤ length (unsubscriptions (trace w)) + 1)%nat ∧
    cache w' ⊆ cache w).
  { intros w' Hn Hd Hc [-> | [line ->]]; rewrite Hc;
      rewrite ?mails_app, ?cache_sets_app, ?cache_deletes_app,
        ?unsubscriptions_app; simpl; rewrite ?app_nil_r;
      repeat split; auto; lia. }
  destruct (GET request !! "token") as [token|] eqn:Htok.
  2:{ unfold get. rewrite Htok. run. apply Hquiet; auto. }
  destruct (peek (cache w) (now w) (cache_key_format token)) as [t|] eqn:Hpeek.
  2:{ rewrite (get_no_entry E list_id request token w) by done.
      apply Hquiet; auto. }
  destruct t as [[d|a]|s].
  - destruct (d !! "email") as [email|] eqn:Hemail.
    + destruct (d !! "list_id") as [lid|] eqn:Hlid.
      * destruct (has_key (cache w) (now w) (pending_key list_id email)) eqn:Hm.
        -- destruct (get_consumes E list_id request token email d w)
             as (Hc & Ht & Hn & Hd); [eauto..|].
           rewrite Hc, Ht, Hn, Hd. unfold consumed. cbn [cache trace].
           rewrite mails_app, cache_sets_app, cache_deletes_app,
             unsubscriptions_app, !length_app. simpl. rewrite !app_nil_r.
           repeat split; try lia.
           etrans; apply delete_subseteq.
        -- rewrite (get_payload_no_marker E list_id request token email d w)
             by eauto.
           apply Hquiet; auto.
      * unfold get. rewrite Htok. run. rewrite Hpeek.
        cbn [truthy json_loads]. run. rewrite Hemail, Hlid.
        rewrite bool_decide_eq_true_2, bool_decide_eq_false_2 by
          (eauto; by intros [? ?]).
        run. apply Hquiet; auto.
    + unfold get. rewrite Htok. run. rewrite Hpeek.
      cbn [truthy json_loads]. run. rewrite Hemail.
      rewrite bool_decide_eq_false_2 by (by intros [? ?]). run.
      apply Hquiet; auto.
  - unfold get. rewrite Htok. run. rewrite Hpeek.
    cbn [truthy json_loads]. run. apply Hquiet; auto.
  - unfold get. rewrite Htok. run. rewrite Hpeek.
    destruct s; cbn [truthy json_loads]; run; [apply Hquiet; auto|].
    rewrite mails_app, cache_sets_app, cache_deletes_app, unsubscriptions_app.
    simpl. rewrite !app_nil_r. repeat split; auto; lia.
Qed.

End Frames.

(** ** Request, then confirmation *)

Section Workflow.

Import AnonymousUnsubscribeEmailView AnonymousUnsubscribeView.

(** The world after a request whose mail was delivered. *)
Lemma post_delivered (E : env) (list_id : string) (request : request)
    (email : string) (w : world) (m : mail) :
  POST request !! "email" = Some email →
  mails (trace (snd (post E list_id request w))) = mails (trace w) ++ [m] →
  send_mail E m = inr tt →
  ∃ (token : string) (k : nat),
    fst (get_uuid E w) = inr token ∧
    m = mail_for E list_id email token ∧
    post E list_id request w =
      (inr (Redirect "list_summary" list_id),
       pending_stored E list_id email token
         (record_event (SendMail m) (after_draws k w))).
Proof.
  intros Hemail Hmail Hsent. revert Hmail.
  rewrite (post_run E list_id request email w Hemail).
  post_split E list_id email w;
    rewrite ?mails_app; cbn [mails]; rewrite ?app_nil_r; intros Hmail;
    try (by destruct (not_extended _ _ Hmail)).
  - apply app_inv_head in Hmail. injection Hmail as <-. congruence.
  - apply app_inv_head in Hmail. injection Hmail as <-.
    exists token, k. repeat split; try done.
    unfold pending_stored. settle.
Qed.

(** X8. Request, then confirmation. After a request whose mail was
    delivered, following the link of that mail on the same list, on the store
    as the request left it and before the lifetime has run out, calls the
    unsubscribe operation for the list and the address of the request, once,
    and leaves neither the marker nor the entry of the token behind. *)
Theorem request_then_confirm (E E2 : env) (list_id : string)
    (request visit : request) (email token : string) (w w2 : world) :
  POST request !! "email" = Some email →
  fst (get_uuid E w) = inr token →
  mails (trace (snd (post E list_id request w)))
    = mails (trace w) ++ [mail_for E list_id email token] →
  send_mail E (mail_for E list_id email token) = inr tt →
  GET visit !! "token" = Some token →
  cache w2 = cache (snd (post E list_id request w)) →
  now w2 < now w + VERIFICATION_CODE_EXPIRATION E →
  let out := get E2 list_id visit w2 in
  unsubscriptions (trace (snd out))
    = unsubscriptions (trace w2) ++ [(list_id, email)] ∧
  cache (snd out) !! pending_key list_id email = None ∧
  cache (snd out) !! cache_key_format token = None.
Proof.
  intros Hemail Htoken Hmail Hsent Hvisit Hstore Hlive out. unfold out.
  destruct (post_delivered E list_id request email w _ Hemail Hmail Hsent)
    as (token' & k & Htoken' & _ & Hrun).
  rewrite Htoken in Htoken'. injection Htoken' as <-.
  rewrite Hrun in Hstore. unfold pending_stored in Hstore.
  cbn [snd cache now record_event after_draws] in Hstore.
  set (ttl := VERIFICATION_CODE_EXPIRATION E) in *.
  assert (Hlt : (now w2 <? now w + ttl) = true) by (apply Z.ltb_lt; lia).
  assert (Hpay : peek (cache w2) (now w2) (cache_key_format token)
                 = Some (Dumped (JObj (save_dict email list_id)))).
  { rewrite Hstore, peek_insert_eq. by rewrite Hlt. }
  assert (Hmark : has_key (cache w2) (now w2) (pending_key list_id email) = true).
  { unfold has_key, peek, live. rewrite Hstore.
    destruct (decide (cache_key_format token = pending_key list_id email))
      as [->|Hne].
    - rewrite lookup_insert_eq. cbn [expires]. by rewrite Hlt.
    - rewrite lookup_insert_ne, lookup_insert_eq by done.
      cbn [expires]. by rewrite Hlt. }
  destruct (get_consumes E2 list_id visit token email
              (save_dict email list_id) w2) as (Hc & Ht & _); try done.
  rewrite Hc, Ht. unfold consumed. cbn [cache trace].
  rewrite unsubscriptions_app. split; [done|].
  destruct (lookup_delete_delete (cache w2) (cache_key_format token)
              (pending_key list_id email)) as [? ?]. done.
Qed.

(** X9. After the lifetime. Once the lifetime of a delivered request has
    run out (at once, when the configured lifetime is not positive), the link
    of its mail is turned down as expired or invalid without any call of the
    unsubscribe operation, and the marker is not visible any more, so that
    the request view does not take a new request for a duplicate. *)
Theorem request_lapses (E E2 : env) (list_id : string)
    (request visit : request) (email token : string) (w w2 : world) :
  POST request !! "email" = Some email →
  fst (get_uuid E w) = inr token →
  mails (trace (snd (post E list_id request w)))
    = mails (trace w) ++ [mail_for E list_id email token] →
  send_mail E (mail_for E list_id email token) = inr tt →
  GET visit !! "token" = Some token →
  cache w2 = cache (snd (post E list_id request w)) →
  now w + VERIFICATION_CODE_EXPIRATION E ≤ now w2 →
  get E2 list_id visit w2
    = (inr (Redirect "list_summary" list_id), turned_down w2) ∧
  has_key (cache w2) (now w2) (pending_key list_id email) = false.
Proof.
  intros Hemail Htoken Hmail Hsent Hvisit Hstore Hdead.
  destruct (post_delivered E list_id request email w _ Hemail Hmail Hsent)
    as (token' & k & Htoken' & _ & Hrun).
  rewrite Htoken in Htoken'. injection Htoken' as <-.
  rewrite Hrun in Hstore. unfold pending_stored in Hstore.
  cbn [snd cache now record_event after_draws] in Hstore.
  set (ttl := VERIFICATION_CODE_EXPIRATION E) in *.
  assert (Hlt : (now w2 <? now w + ttl) = false) by (apply Z.ltb_ge; lia).
  split.
  - apply (get_no_entry E2 list_id visit token); [done|].
    rewrite Hstore, peek_insert_eq. by rewrite Hlt.
  - unfold has_key, peek, live. rewrite Hstore.
    destruct (decide (cache_key_format token = pending_key list_id email))
      as [->|Hne].
    + rewrite lookup_insert_eq. cbn [expires]. by rewrite Hlt.
    + rewrite lookup_insert_ne, lookup_insert_eq by done.
      cbn [expires]. by rewrite Hlt.
Qed.

End Workflow.

(** ** Keys *)

Section Keys.

Import AnonymousUnsubscribeEmailView AnonymousUnsubscribeView.

Lemma lower_append (a b : string) :
  Str.lower (a +:+ b) = Str.lower a +:+ Str.lower b.
Proof.
  induction a as [|c a IH]; [done|].
  rewrite append_head. simpl. by rewrite IH, append_head.
Qed.

Lemma lower_char_idem (c : ascii) :
  Str.lower_char (Str.lower_char c) = Str.lower_char c.
Proof.
  destruct c as [[] [] [] [] [] [] [] []]; vm_compute; reflexivity.
Qed.

Lemma lower_idem (s : string) : Str.lower (Str.lower s) = Str.lower s.
Proof.
  induction s as [|c s IH]; [done|]. simpl. by rewrite lower_char_idem, IH.
Qed.

(** The marker key is the token key of the lowered pair. *)
Lemma pending_key_as_token (list_id email : string) :
  pending_key list_id email
    = cache_key_format (Str.lower (list_id +:+ "_" +:+ email)).
Proof.
  unfold pending_key, cache_key_format. by rewrite lower_append.
Qed.


(** X11. The two kinds of key share one name space. While the marker of a
    list and an address is visible, a visit whose token is the lowered text
    [<list_id>_<address>] reads the marker as if it were a payload; the
    marker is not a dict, so the view raises [AttributeError] outside of its
    handlers and changes nothing. *)
Theorem marker_read_as_payload (E : env) (served list_id email : string)
    (request : request) (w : world) :
  peek (cache w) (now w) (pending_key list_id email) = Some marker →
  GET request !! "token" = Some (Str.lower (list_id +:+ "_" +:+ email)) →
  get E served request w
    = (inl (AttributeError "object has no attribute 'keys'"), w).
Proof.
  intros Hpeek Htok. rewrite pending_key_as_token in Hpeek.
  unfold get. rewrite Htok. run. rewrite Hpeek. by cbn.
Qed.

(** X12. First fit. A token returned by [get_uuid] is the first of the
    candidates drawn whose key is not visible: the candidates before it all
    collide, and exactly the candidates up to it have been drawn. *)
Theorem get_uuid_first_fit (E : env) (w : world) (token : string) :
  fst (get_uuid E w) = inr token →
  ∃ j : nat,
    (j < 5)%nat ∧
    token = candidate E w j ∧
    collides w (candidate E w j) = false ∧
    (∀ i : nat, (i < j)%nat → collides w (candidate E w i) = true) ∧
    snd (get_uuid E w) = after_draws (S j) w.
Proof.
  unfold get_uuid. intros Htoken.
  destruct (get_uuid_loop_spec E 5 w) as (k & Hle & Hsnd & Hbefore & Hcases).
  destruct Hcases as [(j & -> & Hfst & Hfree) | (_ & Hfst & _)];
    rewrite Hfst in Htoken; [|done].
  injection Htoken as <-. exists j. repeat split; try done; try lia.
  intros i Hi. apply Hbefore. lia.
Qed.

Lemma replace_first_dot_no_dot (s : string) :
  all_in (fun c => negb (Ascii.eqb c ".")) s = true →
  Str.replace_first_dot s = s.
Proof.
  induction s as [|c s IH]; simpl; [done|].
  intros H. apply andb_true_iff in H as [Hc Hs].
  destruct (Ascii.eqb c "."); [done|]. by rewrite IH.
Qed.

Lemma replace_first_dot_spec (name rest : string) :
  all_in (fun c => negb (Ascii.eqb c ".")) name = true →
  Str.replace_first_dot (name +:+ "." +:+ rest) = name +:+ "@" +:+ rest.
Proof.
  intros Hname. induction name as [|c name IH]; [done|].
  simpl in Hname. apply andb_true_iff in Hname as [Hc Hs].
  rewrite !(append_head c name). simpl.
  destruct (Ascii.eqb c "."); [done|]. by rewrite IH.
Qed.

(** X13. The confirmation mail. [send_email] hands one mail to the
    transport, addressed to the given address alone; its subject names the
    list by the list id with the first dot turned into an at sign, later dots
    kept, and by the list id itself when that has no dot. *)
Theorem confirmation_mail_names_list (E : env) (email name rest token : string)
    (w : world) :
  all_in (fun c => negb (Ascii.eqb c ".")) name = true →
  (∃ m : mail,
     mails (trace (snd (send_email E email (name +:+ "." +:+ rest) token w)))
       = mails (trace w) ++ [m] ∧
     recipient_list m = [email] ∧
     subject m = "Your confirmation is needed to leave the "
                   +:+ (name +:+ "@" +:+ rest) +:+ " mailing list") ∧
  (∃ m : mail,
     mails (trace (snd (send_email E email name token w)))
       = mails (trace w) ++ [m] ∧
     recipient_list m = [email] ∧
     subject m = "Your confirmation is needed to leave the "
                   +:+ name +:+ " mailing list").
Proof.
  intros Hname. rewrite !send_email_run. cbn [snd trace record_event].
  rewrite !mails_app. cbn [mails]. split; eexists; (split; [reflexivity|]);
    unfold mail_for; cbn [recipient_list subject]; (split; [done|]).
  - by rewrite replace_first_dot_spec.
  - by rewrite replace_first_dot_no_dot.
Qed.

End Keys.

(** ** Other views *)

Section OtherViews.

(** X14. Unsubscribing as a logged-in user. The view calls the unsubscribe
    operation exactly when the user owns the address as a verified one and
    the core has no pending request for it, then once and for the address of
    the form; in no case does it read or write the store of the anonymous
    workflow, draw a token or send a mail. *)
Theorem logged_in_unsubscribe_is_guarded (E : env) (owned : string → nat)
    (list_id : string) (request : request) (email : string) (w : world) :
  POST request !! "email" = Some email →
  let out := ListUnsubscribeView.post E owned list_id request w in
  unsubscriptions (trace (snd out))
    = unsubscriptions (trace w)
        ++ (if Nat.eqb (owned email) 0 || has_pending_unsub_req E list_id email
            then [] else [(list_id, email)]) ∧
  cache (snd out) = cache w ∧
  cache_writes (trace (snd out)) = cache_writes (trace w) ∧
  mails (trace (snd out)) = mails (trace w) ∧
  drawn (snd out) = drawn w.
Proof.
  intros Hemail out. unfold out, ListUnsubscribeView.post. run.
  rewrite Hemail.
  destruct (Nat.eqb (owned email) 0); run.
  { by rewrite app_nil_r. }
  destruct (has_pending_unsub_req E list_id email); run.
  { by rewrite app_nil_r. }
  destruct (unsubscribe E list_id email) as [e|[r|]]; run;
    [destruct (is_ValueError e) | destruct (r !! "token") | ]; run;
    by rewrite unsubscriptions_app, cache_writes_app, mails_app, !app_nil_r.
Qed.

Lemma has_star_wrapped (s : string) :
  ListMembersViews.has_star ("*" +:+ s +:+ "*") = true.
Proof. done. Qed.

(** X15. The search query for members. The query handed to the core is
    empty, when [q] is missing or empty, or it contains a star; a [q] that
    has a star is handed on as it is, a [q] without one is handed on between
    two stars, and preparing a prepared query changes nothing. *)
Theorem prepare_query_has_star (request : request) :
  let query := ListMembersViews._prepare_query request in
  (query = EmptyString ∨ ListMembersViews.has_star query = true) ∧
  (query = EmptyString ↔
     GET request !! "q" = None ∨ GET request !! "q" = Some EmptyString) ∧
  (∀ q : string, GET request !! "q" = Some q →
     ListMembersViews.has_star q = true → query = q) ∧
  (∀ q : string, GET request !! "q" = Some q →
     q ≠ EmptyString → ListMembersViews.has_star q = false →
     query = "*" +:+ q +:+ "*") ∧
  ListMembersViews._prepare_query
    {| POST := POST request; GET := <["q" := query]> (GET request) |} = query.
Proof.
  unfold ListMembersViews._prepare_query. cbv zeta. cbn [GET].
  rewrite lookup_insert_eq.
  destruct (GET request !! "q") as [[|c q]|] eqn:Hq.
  - repeat split; auto; try (by intros s [= <-]).
  - destruct (ListMembersViews.has_star (String c q)) eqn:Hstar; cbn [negb].
    + rewrite Hstar. cbn [negb]. repeat split; auto.
      * intros [=].
      * intros [[=]|[=]].
      * by intros s [= <-].
      * intros s [= <-]. congruence.
    + rewrite has_star_wrapped. cbn [negb].
      repeat split; auto.
      * intros [=].
      * intros [[=]|[=]].
      * intros s [= <-]. congruence.
      * by intros s [= <-].
  - repeat split; auto; intros s [=].
Qed.

Lemma unsubscribe_each_run (E : env) (list_id : string)
    (members : list string) (w : world) :
  fst (ListMembersViews.unsubscribe_each E list_id members w)
    = match first_failure E list_id members with
      | Some e => inl e
      | None => inr tt
      end ∧
  unsubscriptions
    (trace (snd (ListMembersViews.unsubscribe_each E list_id members w)))
    = unsubscriptions (trace w)
        ++ map (pair list_id) (attempted E list_id members) ∧
  messages (snd (ListMembersViews.unsubscribe_each E list_id members w))
    = messages w ∧
  cache (snd (ListMembersViews.unsubscribe_each E list_id members w))
    = cache w.
Proof.
  revert w. induction members as [|member rest IH]; intros w.
  - simpl. run. by rewrite app_nil_r.
  - cbn [ListMembersViews.unsubscribe_each first_failure attempted]. run.
    destruct (unsubscribe E list_id member) as [e|r]; run.
    + by rewrite unsubscriptions_app.
    + destruct (IH (record_event (Unsubscribe list_id member) w))
        as (Hf & Hu & Hm & Hc).
      rewrite Hf, Hu, Hm, Hc. cbn [trace messages cache record_event].
      rewrite unsubscriptions_app, <- app_assoc. done.
Qed.

(** X16. Unsubscribing the selected members is not all or nothing. The
    view calls the core for the selected members in order. If the core
    raises for one of them the exception leaves the view, no message is
    shown, and the members before that one have been unsubscribed; otherwise
    all have been, one message says so and the view redirects to the members
    of the role. A form that is not valid calls nothing and shows nothing. *)
Theorem member_post_stops_at_first_failure (E : env) (list_id role : string)
    (choices : option (list string)) (w : world) :
  let out := ListMembersViews._member_post E list_id choices role w in
  match choices with
  | None =>
      out = (inr (RedirectTo "list_members" [list_id; role]), w)
  | Some members =>
      unsubscriptions (trace (snd out))
        = unsubscriptions (trace w)
            ++ map (pair list_id) (attempted E list_id members) ∧
      match first_failure E list_id members with
      | Some e => fst out = inl e ∧ messages (snd out) = messages w
      | None =>
          fst out = inr (RedirectTo "list_members" [list_id; role]) ∧
          messages (snd out)
            = messages w ++ [Message SUCCESS ListMembersViews.MEMBERS_UNSUBSCRIBED] ∧
          attempted E list_id members = members
      end
  end.
Proof.
  intros out. unfold out.
  destruct choices as [members|];
    [|by unfold ListMembersViews._member_post; run].
  assert (Hout : ListMembersViews._member_post E list_id (Some members) role w =
    match ListMembersViews.unsubscribe_each E list_id members w with
    | (inl e, w1) => (inl e, w1)
    | (inr _, w1) =>
        (inr (RedirectTo "list_members" [list_id; role]),
         record_message SUCCESS ListMembersViews.MEMBERS_UNSUBSCRIBED w1)
    end).
  { unfold ListMembersViews._member_post. run.
    by destruct (ListMembersViews.unsubscribe_each E list_id members w)
      as [[e|[]] w1]. }
  rewrite Hout.
  destruct (unsubscribe_each_run E list_id members w) as (Hf & Hu & Hm & _).
  destruct (ListMembersViews.unsubscribe_each E list_id members w)
    as [[e|[]] w1]; cbn [fst snd] in *.
  - split; [done|].
    destruct (first_failure E list_id members); [|done].
    by injection Hf as <-.
  - split; [done|].
    destruct (first_failure E list_id members) eqn:Hff; [done|].
    cbn [messages record_message]. rewrite Hm. repeat split; try done.
    clear -Hff. induction members as [|m rest IH]; [done|].
    simpl in *. destruct (unsubscribe E list_id m); [done|].
    by rewrite IH.
Qed.

(** X17. Emptying a list is not all or nothing either. On a POST for a
    list with members the view calls the core for the members in order; when
    the core raises for one of them, the members before it stay
    unsubscribed, the text of the exception is shown as an error and the
    confirmation page is rendered again. A list without members gets an
    error message and no call. *)
Theorem remove_all_subscribers_is_partial (E : env) (list_id : string)
    (members : list string) (w : world) :
  let out := remove_all_subscribers E list_id members true w in
  unsubscriptions (trace (snd out))
    = unsubscriptions (trace w)
        ++ map (pair list_id) (attempted E list_id members) ∧
  match members, first_failure E list_id members with
  | [], _ =>
      fst out = inr (RedirectTo "mass_removal" [list_id]) ∧
      messages (snd out) = messages w ++ [Message ERROR NO_MEMBER]
  | _, Some e =>
      fst out = inr (Render "postorius/lists/confirm_removeall_subscribers.html") ∧
      messages (snd out) = messages w ++ [Message ERROR (exn_str e)]
  | _, None =>
      fst out = inr (RedirectTo "list_members" [list_id; "subscriber"]) ∧
      messages (snd out) = messages w ++ [Message SUCCESS ALL_UNSUBSCRIBED]
  end.
Proof.
  intros out. unfold out.
  destruct members as [|m rest].
  { unfold remove_all_subscribers. run. by rewrite app_nil_r. }
  assert (Hout : remove_all_subscribers E list_id (m :: rest) true w =
    match ListMembersViews.unsubscribe_each E list_id (m :: rest) w with
    | (inl e, w1) =>
        (inr (Render "postorius/lists/confirm_removeall_subscribers.html"),
         record_message ERROR (exn_str e) w1)
    | (inr _, w1) =>
        (inr (RedirectTo "list_members" [list_id; "subscriber"]),
         record_message SUCCESS ALL_UNSUBSCRIBED w1)
    end).
  { unfold remove_all_subscribers. cbn [length Nat.eqb]. run.
    by destruct (ListMembersViews.unsubscribe_each E list_id (m :: rest) w)
      as [[e|[]] w1]. }
  rewrite Hout.
  destruct (unsubscribe_each_run E list_id (m :: rest) w) as (Hf & Hu & Hm & _).
  destruct (ListMembersViews.unsubscribe_each E list_id (m :: rest) w)
    as [[e|[]] w1]; cbn [fst snd] in *;
    (split; [done|]);
    destruct (first_failure E list_id (m :: rest)); try done;
    cbn [messages record_message]; rewrite Hm; try done.
  by injection Hf as <-.
Qed.

End OtherViews.

(** ** Helpers of the list index *)

Section Dicts.

Context {A : Type} (list_id : A → string).

Lemma dict_get_set (d : list (string * A)) (k k' : string) (v : A) :
  dict_get (dict_set d k v) k'
    = if String.eqb k k' then Some v else dict_get d k'.
Proof.
  induction d as [|[k0 v0] d IH]; simpl.
  - done.
  - destruct (String.eqb_spec k0 k) as [->|Hne]; simpl.
    + by destruct (String.eqb k k').
    + destruct (String.eqb_spec k0 k') as [->|Hne'].
      * destruct (String.eqb_spec k k'); [congruence|done].
      * apply IH.
Qed.

Lemma dict_set_keys (d : list (string * A)) (k : string) (v : A) :
  map fst (dict_set d k v)
    = if existsb (String.eqb k) (map fst d) then map fst d
      else map fst d ++ [k].
Proof.
  induction d as [|[k0 v0] d IH]; simpl; [done|].
  rewrite (String.eqb_sym k k0).
  destruct (String.eqb k0 k); simpl; [done|].
  rewrite IH. by destruct (existsb (String.eqb k) (map fst d)).
Qed.

Lemma dict_set_NoDup (d : list (string * A)) (k : string) (v : A) :
  List.NoDup (map fst d) → List.NoDup (map fst (dict_set d k v)).
Proof.
  intros Hd. rewrite dict_set_keys.
  destruct (existsb (String.eqb k) (map fst d)) eqn:Hex; [done|].
  apply List.NoDup_app; [done| |].
  { constructor; [by intros []|constructor]. }
  intros x Hx [Heq|[]]. subst x.
  assert (existsb (String.eqb k) (map fst d) = true); [|congruence].
  apply existsb_exists. exists k. split; [done|]. apply String.eqb_refl.
Qed.

Lemma dict_get_In (d : list (string * A)) (k : string) (v : A) :
  List.NoDup (map fst d) →
  (In (k, v) d ↔ dict_get d k = Some v).
Proof.
  induction d as [|[k0 v0] d IH]; simpl; intros Hd.
  - split; [intros []|discriminate].
  - inversion Hd as [|? ? Hnot Hd']; subst.
    destruct (String.eqb_spec k0 k) as [->|Hne].
    + split.
      * intros [[= ->]|Hin]; [done|].
        destruct Hnot. apply in_map_iff. by exists (k, v).
      * intros [= ->]. by left.
    + rewrite <- (IH Hd'). split; [|by right].
      intros [[= -> ->]|Hin]; done.
Qed.

Lemma find_app (f : A → bool) (a b : list A) :
  find f (a ++ b) = match find f a with Some x => Some x | None => find f b end.
Proof.
  induction a as [|x a IH]; simpl; [done|]. by destruct (f x).
Qed.

(** The dict built by the comprehension: keys without repetition, and under
    each key the last list of the input with that id. *)
Lemma by_list_id_fold (lists : list A) (d0 : list (string * A)) (k : string) :
  List.NoDup (map fst d0) →
  List.NoDup
    (map fst (fold_left (fun d m => dict_set d (list_id m) m) lists d0)) ∧
  dict_get (fold_left (fun d m => dict_set d (list_id m) m) lists d0) k
    = match find (fun m => String.eqb (list_id m) k) (rev lists) with
      | Some m => Some m
      | None => dict_get d0 k
      end.
Proof.
  revert d0. induction lists as [|m lists IH]; intros d0 Hd0; simpl.
  - done.
  - destruct (IH (dict_set d0 (list_id m) m)) as [Hnd Hget].
    { by apply dict_set_NoDup. }
    split; [done|]. rewrite Hget, find_app. simpl.
    destruct (find _ (rev lists)); [done|]. rewrite dict_get_set.
    by destruct (String.eqb (list_id m) k).
Qed.

(** X18. Lists without repetition. [_unique_lists] returns lists of the
    input only, at most one for each list id and one for each list id of the
    input; of several lists with one id it keeps the last. *)
Theorem unique_lists_spec (lists : list A) :
  List.NoDup (map list_id (_unique_lists list_id lists)) ∧
  (∀ m : A, In m (_unique_lists list_id lists) → In m lists) ∧
  (∀ m : A, In m lists →
     ∃ m' : A, In m' (_unique_lists list_id lists) ∧ list_id m' = list_id m) ∧
  (∀ (before after : list A) (m : A),
     lists = before ++ m :: after →
     (∀ x : A, In x after → list_id x ≠ list_id m) →
     In m (_unique_lists list_id lists)).
Proof.
  unfold _unique_lists, by_list_id.
  set (d := fold_left (fun d m => dict_set d (list_id m) m) lists []).
  assert (Hnd : List.NoDup (map fst d)).
  { apply (by_list_id_fold lists [] EmptyString). constructor. }
  assert (Hget : ∀ k, dict_get d k
            = find (fun m => String.eqb (list_id m) k) (rev lists)).
  { intros k. unfold d.
    destruct (by_list_id_fold lists [] k) as [_ ->]; [constructor|].
    by destruct (find _ (rev lists)). }
  assert (Hitem : ∀ k v, In (k, v) d → In v lists ∧ list_id v = k).
  { intros k v Hin. apply (dict_get_In d k v Hnd) in Hin.
    rewrite Hget in Hin. apply find_some in Hin as [Hin Heq].
    apply in_rev in Hin. by apply String.eqb_eq in Heq. }
  split; [|split; [|split]].
  - rewrite map_map.
    replace (map (fun x => list_id (snd x)) d) with (map fst d); [done|].
    apply map_ext_in. intros [k v] Hin. simpl.
    by destruct (Hitem k v Hin) as [_ ->].
  - intros m Hin. apply in_map_iff in Hin as ([k v] & <- & Hin).
    by destruct (Hitem k v Hin).
  - intros m Hin.
    destruct (find (fun x => String.eqb (list_id x) (list_id m)) (rev lists))
      as [m'|] eqn:Hfind.
    + exists m'. rewrite <- Hget in Hfind.
      apply (dict_get_In d _ _ Hnd) in Hfind.
      split; [apply in_map_iff; by exists (list_id m, m')|].
      by destruct (Hitem _ _ Hfind).
    + apply in_rev in Hin.
      pose proof (find_none _ _ Hfind m Hin) as Hno. simpl in Hno.
      by rewrite String.eqb_refl in Hno.
  - intros before after m -> Hafter.
    apply in_map_iff. exists (list_id m, m). split; [done|].
    apply (dict_get_In d _ _ Hnd). rewrite Hget.
    rewrite rev_app_distr. simpl. rewrite <- app_assoc, find_app.
    destruct (find _ (rev after)) as [x|] eqn:Hfind.
    + apply find_some in Hfind as [Hin Heq].
      apply in_rev in Hin. apply String.eqb_eq in Heq.
      by destruct (Hafter x Hin).
    + simpl. by rewrite String.eqb_refl.
Qed.

End Dicts.

Section MailHost.

Variable site_of : string → option string.
Variable web_host : string.

Lemma mail_host_step_collected (seen : list string) (acc : list string * bool)
    (mail_host : string) :
  collected site_of web_host seen acc →
  collected site_of web_host (seen ++ [mail_host])
    (mail_host_step site_of web_host acc mail_host).
Proof.
  destruct acc as [hs u]. intros (Hnd & Hin & Hu).
  unfold collected, mail_host_step. cbn [fst snd] in *.
  assert (Hseen : ∀ x, In x (seen ++ [mail_host]) ↔ In x seen ∨ x = mail_host).
  { intros x. rewrite in_app_iff. simpl. intuition. }
  destruct (site_of mail_host) as [site|] eqn:Hsite.
  - destruct (String.eqb_spec site web_host) as [->|Hne].
    + destruct (existsb (String.eqb mail_host) hs) eqn:Hex; cbn [negb fst snd].
      * apply existsb_exists in Hex as (y & Hy & Heq).
        apply String.eqb_eq in Heq as <-.
        split; [done|]. split.
        -- intros x. rewrite Hin, Hseen. split; [intuition|].
           intros [[?| ->] ?]; [done|]. by apply Hin.
        -- rewrite Hu. split; intros (d & Hd & Hnone); exists d.
           ++ rewrite Hseen. auto.
           ++ apply Hseen in Hd as [?| ->]; [done|congruence].
      * split; [|split].
        -- apply List.NoDup_app; [done|constructor; [by intros []|constructor]|].
           intros x Hx [Heq|[]]. subst x.
           assert (existsb (String.eqb mail_host) hs = true); [|congruence].
           apply existsb_exists. exists mail_host.
           split; [done|apply String.eqb_refl].
        -- intros x. rewrite in_app_iff, Hin, Hseen. simpl. split.
           ++ intros [[? ?]|[<-|[]]]; auto.
           ++ intros [[?| ->] ?]; auto.
        -- rewrite Hu. split; intros (d & Hd & Hnone); exists d.
           ++ rewrite Hseen. auto.
           ++ apply Hseen in Hd as [?| ->]; [done|congruence].
    + cbn [fst snd]. split; [done|]. split.
      * intros x. rewrite Hin, Hseen. split; [intuition|].
        intros [[?| ->] ?]; [done|congruence].
      * rewrite Hu. split; intros (d & Hd & Hnone); exists d.
        -- rewrite Hseen. auto.
        -- apply Hseen in Hd as [?| ->]; [done|congruence].
  - cbn [fst snd]. split; [done|]. split.
    + intros x. rewrite Hin, Hseen. split; [intuition|].
      intros [[?| ->] ?]; [done|congruence].
    + split; [|done]. intros _. exists mail_host. rewrite Hseen. auto.
Qed.

Lemma mail_host_loop_collected (domains seen : list string)
    (acc : list string * bool) :
  collected site_of web_host seen acc →
  collected site_of web_host (seen ++ domains)
    (fold_left (mail_host_step site_of web_host) domains acc).
Proof.
  revert seen acc. induction domains as [|d domains IH]; intros seen acc Hacc.
  - by rewrite app_nil_r.
  - simpl. replace (seen ++ d :: domains) with ((seen ++ [d]) ++ domains)
      by (by rewrite <- app_assoc).
    apply IH. by apply mail_host_step_collected.
Qed.

(** X19. The mail host of a web host. With [FILTER_VHOST] off the answer
    is [None]. Otherwise a mail host is returned exactly when it is the one
    mail host among the domains whose site is the web host; the web host
    itself is returned when no mail host has that site and some domain has no
    [MailDomain]; in every other case the answer is [None]. *)
Theorem get_mail_host_spec (FILTER_VHOST : bool) (domains : list string) :
  let answer := _get_mail_host FILTER_VHOST domains site_of web_host in
  let mine (d : string) := In d domains ∧ site_of d = Some web_host in
  (FILTER_VHOST = false → answer = None) ∧
  (∀ h : string,
     FILTER_VHOST = true → mine h → (∀ d : string, mine d → d = h) →
     answer = Some h) ∧
  (FILTER_VHOST = true → (∀ d : string, ¬ mine d) →
     (∃ d : string, In d domains ∧ site_of d = None) →
     answer = Some web_host) ∧
  (FILTER_VHOST = true → (∀ d : string, ¬ mine d) →
     (∀ d : string, In d domains → site_of d ≠ None) →
     answer = None) ∧
  (∀ h h' : string,
     mine h → mine h' → h ≠ h' → answer = None).
Proof.
  intros answer mine. unfold answer, _get_mail_host.
  pose proof (mail_host_loop_collected domains [] ([], false)) as Hloop.
  destruct (fold_left (mail_host_step site_of web_host) domains ([], false))
    as [hs u] eqn:Hfold.
  destruct Hloop as (Hnd & Hin & Hu).
  { split; [constructor|]. split; [|split; [done|]].
    - intros x. simpl. intuition.
    - intros (d & [] & _). }
  cbn [fst snd app] in *.
  split; [by intros ->|].
  split; [|split; [|split]].
  - intros h -> Hh Huniq. cbn [negb].
    destruct hs as [|a [|b hs]].
    + apply Hin in Hh as [].
    + f_equal. apply Huniq, Hin. by left.
    + inversion Hnd as [|? ? Hnot _]; subst. destruct Hnot.
      assert (a = h) as -> by (apply Huniq, Hin; by left).
      assert (b = h) as -> by (apply Huniq, Hin; right; by left).
      by left.
  - intros -> Hnone Hex. cbn [negb].
    destruct hs as [|a hs].
    + apply Hu in Hex as ->. done.
    + destruct (Hnone a). apply Hin. by left.
  - intros -> Hnone Hall. cbn [negb].
    destruct hs as [|a hs].
    + destruct u; [|done].
      destruct Hu as [Hu _]. destruct (Hu eq_refl) as (d & Hd & Hno).
      by destruct (Hall d Hd).
    + destruct (Hnone a). apply Hin. by left.
  - intros h h' Hh Hh' Hne. destruct FILTER_VHOST; [|done]. cbn [negb].
    apply Hin in Hh, Hh'.
    destruct hs as [|a [|b hs]]; [done| |done].
    destruct Hh as [<-|[]], Hh' as [<-|[]]. done.
Qed.

End MailHost.

Section SubscriptionRequests.

Variable get_or_404 : string → exn + string.
Variable moderate_request : string → string → option string → exn + unit.
Variable reason_of : exn → string.

(** X20. The action of a moderated request. The action is the last of
    accept, reject, discard and defer that the form names, so that defer
    wins over the others. When the form names none of them the view raises
    [UnboundLocalError] once the list is found, says nothing and changes
    nothing: the test [action is None] that follows cannot succeed. When the
    core accepts the action the message shown is that of this action. *)
Theorem subscription_request_action (request : request)
    (list_id request_id : string) (w : world) :
  let named (k : string) := bool_decide (is_Some (POST request !! k)) in
  let run :=
    handle_subscription_request get_or_404 moderate_request reason_of
      request list_id request_id w in
  chosen_action (POST request)
    = (if named "defer" then Some "defer"
       else if named "discard" then Some "discard"
       else if named "reject" then Some "reject"
       else if named "accept" then Some "accept"
       else None) ∧
  (∀ m_list : string,
     get_or_404 list_id = inr m_list →
     chosen_action (POST request) = None →
     run = (inl (OtherError "UnboundLocalError"
                   "local variable 'action' referenced before assignment"), w)) ∧
  (∀ (m_list action : string),
     get_or_404 list_id = inr m_list →
     chosen_action (POST request) = Some action →
     moderate_request request_id action (POST request !! "reason") = inr tt →
     ∃ text : string,
       In (action, text) confirmation_messages ∧
       run = (inr (RedirectTo "list_subscription_requests" [m_list]),
              record_message SUCCESS text w)).
Proof.
  intros named run.
  assert (Hchosen : chosen_action (POST request)
    = (if named "defer" then Some "defer"
       else if named "discard" then Some "discard"
       else if named "reject" then Some "reject"
       else if named "accept" then Some "accept"
       else None)).
  { unfold chosen_action, named. simpl.
    by repeat destruct (bool_decide _). }
  split; [done|]. unfold run, handle_subscription_request. split.
  - intros m_list Hlist Hnone. run. by rewrite Hlist, Hnone.
  - intros m_list action Hlist Hsome Hok. run. rewrite Hlist, Hsome.
    rewrite Hok. rewrite Hchosen in Hsome.
    destruct (named "defer"); [injection Hsome as <-|
    destruct (named "discard"); [injection Hsome as <-|
    destruct (named "reject"); [injection Hsome as <-|
    destruct (named "accept"); [injection Hsome as <-|done]]]];
      simpl; run; eexists; (split; [|reflexivity]); simpl; auto.
Qed.

End SubscriptionRequests.

(** ** The further properties at the sample inputs *)

(** X1 at the sample address. *)
Lemma re_match_well_formed_witness : well_formed addr.
Proof. apply re_match_well_formed. vm_compute. reflexivity. Defined.

(** X2 right after storing, and at the end of the lifetime. *)
Lemma set_token_get_token_witness :
  let stored := snd (set_token reachable addr x_list "0a" idle) in
  get_token "0a" stored = (inr (JObj (save_dict addr x_list)), stored) ∧
  get_token "0a" (at_time 1600 stored) = (inr (JObj ∅), at_time 1600 stored).
Proof.
  set (stored := snd (set_token reachable addr x_list "0a" idle)).
  split.
  - apply (proj1 (set_token_get_token reachable addr x_list "0a" idle
                    stored eq_refl)).
    vm_compute. reflexivity.
  - apply (proj2 (set_token_get_token reachable addr x_list "0a" idle
                    (at_time 1600 stored) eq_refl)).
    vm_compute. discriminate.
Defined.

(** X6 at the first request. *)
Lemma post_writes_after_delivery_witness :
  ∃ email token : string,
    POST (form addr) !! "email" = Some email ∧
    fst (get_uuid reachable idle) = inr token ∧
    send_mail reachable (mail_for reachable x_list email token) = inr tt.
Proof.
  assert (H : cache_writes
                (trace (snd (AnonymousUnsubscribeEmailView.post reachable x_list
                               (form addr) idle)))
              ≠ cache_writes (trace idle))
    by (vm_compute; discriminate).
  destruct (post_writes_after_delivery reachable x_list (form addr) idle H)
    as (email & token & H1 & H2 & _ & H4 & _).
  exists email, token. exact (conj H1 (conj H2 H4)).
Defined.

(** X8: the request of the sample scenario, and its link a minute later. *)
Lemma request_then_confirm_witness :
  let out := AnonymousUnsubscribeView.get reachable x_list (link "0a")
               (at_time 1060 requested) in
  unsubscriptions (trace (snd out)) = [(x_list, addr)] ∧
  cache (snd out) !! pending_key x_list addr = None ∧
  cache (snd out) !! cache_key_format "0a" = None.
Proof.
  apply (request_then_confirm reachable reachable x_list (form addr)
           (link "0a") addr "0a" idle (at_time 1060 requested)).
  - vm_compute. reflexivity.
  - vm_compute. reflexivity.
  - vm_compute. reflexivity.
  - reflexivity.
  - vm_compute. reflexivity.
  - vm_compute. reflexivity.
  - vm_compute. reflexivity.
Defined.

(** X9: the same link ten minutes after the request. *)
Lemma request_lapses_witness :
  AnonymousUnsubscribeView.get reachable x_list (link "0a") lapsed
    = (inr (Redirect "list_summary" x_list), turned_down lapsed) ∧
  has_key (cache lapsed) (now lapsed) (pending_key x_list addr) = false.
Proof.
  apply (request_lapses reachable reachable x_list (form addr)
           (link "0a") addr "0a" idle lapsed).
  - vm_compute. reflexivity.
  - vm_compute. reflexivity.
  - vm_compute. reflexivity.
  - reflexivity.
  - vm_compute. reflexivity.
  - vm_compute. reflexivity.
  - vm_compute. discriminate.
Defined.


(** X11: the marker of the pending request taken for a token. *)
Lemma marker_read_as_payload_witness :
  AnonymousUnsubscribeView.get reachable x_list Cases.marker_link requested
  = (inl (AttributeError "object has no attribute 'keys'"), requested).
Proof.
  apply (marker_read_as_payload reachable x_list x_list addr
           Cases.marker_link requested).
  - vm_compute. reflexivity.
  - vm_compute. reflexivity.
Defined.

(** X12: the first candidate collides, the second is returned. *)
Lemma get_uuid_first_fit_witness :
  ∃ j : nat,
    (j < 5)%nat ∧ "1b" = candidate reachable Cases.replayed j ∧
    snd (get_uuid reachable Cases.replayed) = after_draws (S j) Cases.replayed.
Proof.
  assert (H : fst (get_uuid reachable Cases.replayed) = inr "1b")
    by (vm_compute; reflexivity).
  destruct (get_uuid_first_fit reachable Cases.replayed "1b" H)
    as (j & H1 & H2 & _ & _ & H5).
  exists j. exact (conj H1 (conj H2 H5)).
Defined.

(** X13 for the list [x.example.com]. *)
Lemma confirmation_mail_names_list_witness :
  ∃ m : mail,
    mails (trace (snd (send_email reachable addr ("x" +:+ "." +:+ "example.com")
                         "0a" idle)))
      = mails (trace idle) ++ [m] ∧
    recipient_list m = [addr] ∧
    subject m = "Your confirmation is needed to leave the "
                  +:+ ("x" +:+ "@" +:+ "example.com") +:+ " mailing list".
Proof.
  apply (confirmation_mail_names_list reachable addr "x" "example.com" "0a" idle).
  vm_compute. reflexivity.
Defined.

(** X14: the user unsubscribes an address of their own. *)
Lemma logged_in_unsubscribe_is_guarded_witness :
  unsubscriptions
    (trace (snd (ListUnsubscribeView.post reachable Cases.owned x_list
                   (form addr) idle)))
  = [(x_list, addr)].
Proof.
  assert (H : POST (form addr) !! "email" = Some addr)
    by (vm_compute; reflexivity).
  exact (proj1 (logged_in_unsubscribe_is_guarded reachable Cases.owned x_list
                  (form addr) addr idle H)).
Defined.

(** X18: of the two lists with the id [x.example.com] the later is kept. *)
Lemma unique_lists_spec_witness :
  In ("x.example.com", 3%nat) (_unique_lists fst Cases.listed).
Proof.
  apply (proj2 (proj2 (proj2 (unique_lists_spec fst Cases.listed)))
           [("x.example.com", 1%nat); ("y.example.com", 2%nat)] []
           ("x.example.com", 3%nat)).
  - reflexivity.
  - intros x [].
Defined.

(** X19: one mail host on the site, and a site without any. *)
Lemma get_mail_host_spec_witness :
  _get_mail_host true ["lists.example.com"; "lists.example.org"; "old.example.net"]
    Cases.site_of "www.example.com" = Some "lists.example.com".
Proof.
  apply (proj1 (proj2 (get_mail_host_spec Cases.site_of "www.example.com" true
           ["lists.example.com"; "lists.example.org"; "old.example.net"]))
           "lists.example.com" eq_refl).
  - split; [by left | reflexivity].
  - intros d [[<-|[<-|[<-|[]]]] Hsite]; [reflexivity|discriminate|discriminate].
Defined.

(** X20: a form that names accept and defer defers. *)
Lemma subscription_request_action_witness :
  ∃ text : string,
    In ("defer", text) confirmation_messages ∧
    handle_subscription_request Cases.found Cases.accepted Cases.reason_of
      Cases.moderated x_list "7" idle
    = (inr (RedirectTo "list_subscription_requests" [x_list]),
       record_message SUCCESS text idle).
Proof.
  apply (proj2 (proj2 (subscription_request_action Cases.found Cases.accepted
           Cases.reason_of Cases.moderated x_list "7" idle)) x_list "defer").
  - reflexivity.
  - vm_compute. reflexivity.
  - reflexivity.
Defined.

(** ** Roles and anonymous subscription *)

Section Roles.

Variable roster user_emails : list string.
Variable remove : M unit.
Variable list_id role address : string.

(** X21. Guards of [remove_role]. The core is not asked to remove the
    role, whatever the method of the request, when the address is not in the
    roster and when the role is owner and the roster has one member; it is
    not asked on a GET either, which renders the confirmation page. On a
    POST that passes the guards and that the core accepts, owners who remove
    themselves are sent to the summary of the list, everyone else to the
    members of the role. *)
Theorem remove_role_guards (is_post : bool) (w : world) :
  let members := RedirectTo "list_members" [list_id; role] in
  let run := remove_role roster user_emails remove list_id role address is_post w in
  (address ∉ roster →
     run = (inr members, record_message ERROR (not_in_group address role) w)) ∧
  (address ∈ roster → role = "owner" → length roster = 1%nat →
     run = (inr members, record_message ERROR LAST_OWNER w)) ∧
  (address ∈ roster → (role = "owner" → length roster ≠ 1%nat) →
     is_post = false →
     run = (inr (Render CONFIRM_REMOVE_ROLE), w)) ∧
  (∀ w1 : world,
     address ∈ roster → (role = "owner" → length roster ≠ 1%nat) →
     is_post = true → remove w = (inr tt, w1) →
     run = (inr (if bool_decide (role = "owner" ∧ address ∈ user_emails)
                 then RedirectTo "list_summary" [list_id] else members),
            record_message SUCCESS (removed_from_group address role) w1)).
Proof.
  intros members run. unfold run, remove_role, members.
  split; [|split; [|split]].
  - intros Hout. rewrite bool_decide_eq_false_2 by done. by run.
  - intros Hin -> Hone. rewrite bool_decide_eq_true_2 by done.
    rewrite bool_decide_eq_true_2 by done. rewrite Hone. by run.
  - intros Hin Hmany ->. rewrite (bool_decide_eq_true_2 _ Hin). cbn [negb].
    destruct (bool_decide (role = "owner")) eqn:Howner; cbn [andb].
    + apply bool_decide_eq_true in Howner.
      destruct (Nat.eqb_spec (length roster) 1); [by destruct Hmany|]. by run.
    + by run.
  - intros w1 Hin Hmany -> Hremove.
    rewrite (bool_decide_eq_true_2 _ Hin). cbn [negb].
    assert (Hgo : (bool_decide (role = "owner") && Nat.eqb (length roster) 1)
                  = false).
    { destruct (bool_decide (role = "owner")) eqn:Howner; [|done].
      apply bool_decide_eq_true in Howner. cbn [andb].
      by destruct (Nat.eqb_spec (length roster) 1); [destruct Hmany|]. }
    rewrite Hgo. run. rewrite Hremove. run.
    destruct (bool_decide (role = "owner")) eqn:Howner;
      destruct (bool_decide (address ∈ user_emails)) eqn:Hself; cbn [andb].
    + apply bool_decide_eq_true_1 in Howner, Hself.
      by rewrite bool_decide_eq_true_2.
    + apply bool_decide_eq_false_1 in Hself.
      rewrite bool_decide_eq_false_2; [done|]. by intros [_ H].
    + apply bool_decide_eq_false_1 in Howner.
      rewrite bool_decide_eq_false_2; [done|]. by intros [H _].
    + apply bool_decide_eq_false_1 in Howner.
      rewrite bool_decide_eq_false_2; [done|]. by intros [H _].
Qed.

End Roles.

(** X22. Anonymous subscription tells nothing. For a valid form the view
    answers with one and the same message and redirect whether the core
    took the subscription or refused it with an [HTTPError]. *)
Theorem anonymous_subscribe_is_uniform (subscribe : string → string → M unit)
    (list_id email display_name : string) (w : world) :
  fst (subscribe email display_name w) = inr tt ∨
  (∃ code : Z, fst (subscribe email display_name w) = inl (HTTPError code)) →
  ListAnonymousSubscribeView.post (Some (email, display_name)) subscribe list_id w
  = (inr (Redirect "list_summary" list_id),
     record_message SUCCESS ListAnonymousSubscribeView.CHECK_INBOX
       (snd (subscribe email display_name w))).
Proof.
  intros Hcases. unfold ListAnonymousSubscribeView.post. run.
  destruct (subscribe email display_name w) as [[e|[]] w1]; cbn [fst snd] in *.
  - destruct Hcases as [[=]|[code [= ->]]]. by run.
  - by run.
Qed.

(** X21: the only owner cannot be removed, by a POST or otherwise. *)
Lemma remove_role_guards_witness :
  remove_role [addr] [addr] (raise (HTTPError 500)) x_list "owner" addr true idle
  = (inr (RedirectTo "list_members" [x_list; "owner"]),
     record_message ERROR LAST_OWNER idle).
Proof.
  apply (proj1 (proj2 (remove_role_guards [addr] [addr] (raise (HTTPError 500))
                         x_list "owner" addr true idle))).
  - vm_compute. by left.
  - reflexivity.
  - reflexivity.
Defined.

(** X22: the core refuses the subscription. *)
Lemma anonymous_subscribe_is_uniform_witness :
  ListAnonymousSubscribeView.post (Some (addr, "A")) 
    (fun _ _ => raise (HTTPError 409)) x_list idle
  = (inr (Redirect "list_summary" x_list),
     record_message SUCCESS ListAnonymousSubscribeView.CHECK_INBOX idle).
Proof.
  apply (anonymous_subscribe_is_uniform (fun _ _ => raise (HTTPError 409))
           x_list addr "A" idle).
  right. exists 409. reflexivity.
Defined.
